(** * StableRandom: a Mersenne Twister that is stable across Python versions

    A shallow embedding of [stable_random.py] and the verification of its
    specification.  Python integers are unbounded, hence [Z]; the 32-bit
    wrap-around is the explicit [_int32] mask of the source.  The twister
    array [self.mt] is a list updated by index; Python floats are IEEE
    binary64 values, modelled by [spec_float] with precision 53 and
    maximal exponent 1024.  Methods are computations in a state and
    exception monad over the object's three attributes.  The square
    root, logarithm and cosine of [gauss_next] are parameters of its
    model. *)

From Stdlib Require Import ZArith QArith Lia.
From Stdlib Require Import Floats.SpecFloat.
From stdpp Require Import base list.

Local Open Scope Z_scope.

(** ** The object and the method monad *)

Record StableRandom := mkStableRandom {
  _seed : Z;
  index : Z;
  mt : list Z
}.

Inductive exn := IndexError | OverflowError | ValueError.

(** A method call either returns a value or raises; in both cases the
    attributes may have been mutated on the way. *)
Inductive outcome (A : Type) :=
| Ok (a : A) (s : StableRandom)
| Raise (e : exn) (s : StableRandom).
Arguments Ok {A} a s.
Arguments Raise {A} e s.

Definition M (A : Type) := StableRandom -> outcome A.

Definition ret {A} (a : A) : M A := fun s => Ok a s.

Definition bind {A B} (m : M A) (k : A -> M B) : M B :=
  fun s => match m s with
           | Ok a s' => k a s'
           | Raise e s' => Raise e s'
           end.

Definition raise {A} (e : exn) : M A := fun s => Raise e s.

Notation "x <- m ;; k" := (bind m (fun x => k))
  (at level 100, m at next level, right associativity).
Notation "m ;;; k" := (bind m (fun _ => k))
  (at level 100, right associativity).

Definition lift {A} (e : exn) (o : option A) : M A :=
  match o with Some a => ret a | None => raise e end.

Definition get_index : M Z := fun s => Ok (index s) s.
Definition get_seed : M Z := fun s => Ok (_seed s) s.
Definition set_index (i : Z) : M unit :=
  fun s => Ok tt (mkStableRandom (_seed s) i (mt s)).
Definition set_seed (x : Z) : M unit :=
  fun s => Ok tt (mkStableRandom x (index s) (mt s)).
Definition set_mt (l : list Z) : M unit :=
  fun s => Ok tt (mkStableRandom (_seed s) (index s) l).

(** ** Python lists *)

(** Position addressed by the subscript [i] in a list of length [len]:
    negative subscripts count from the end, anything else out of range is
    an [IndexError]. *)
Definition py_index (len : nat) (i : Z) : option nat :=
  if 0 <=? i then
    if i <? Z.of_nat len then Some (Z.to_nat i) else None
  else
    if - Z.of_nat len <=? i then Some (Z.to_nat (Z.of_nat len + i)) else None.

Definition getitem (l : list Z) (i : Z) : option Z :=
  match py_index (length l) i with
  | Some n => l !! n
  | None => None
  end.

Definition setitem (l : list Z) (i : Z) (v : Z) : option (list Z) :=
  match py_index (length l) i with
  | Some n => Some (<[n := v]> l)
  | None => None
  end.

(** [self.mt[i]] and [self.mt[i] = v] *)
Definition mt_get (i : Z) : M Z :=
  fun s => lift IndexError (getitem (mt s) i) s.

Definition mt_set (i v : Z) : M unit :=
  fun s => match setitem (mt s) i v with
           | Some l => set_mt l s
           | None => Raise IndexError s
           end.

(** [range(a, b)] and the [for] statement *)
Definition range (a b : Z) : list Z := seqZ a (b - a).

Fixpoint for_ (l : list Z) (body : Z -> M unit) : M unit :=
  match l with
  | [] => ret tt
  | i :: l' => body i ;;; for_ l' body
  end.

(** ** Python floats *)

Definition prec : Z := 53.
Definition emax : Z := 1024.

Definition fdiv : spec_float -> spec_float -> spec_float := SFdiv prec emax.
Definition fmul : spec_float -> spec_float -> spec_float := SFmul prec emax.

(** [float(n)] for an integer [n]: rounded to nearest even, and an
    [OverflowError] when [n] is too large. *)
Definition py_float (n : Z) : option spec_float :=
  match binary_normalize prec emax n 0 false with
  | S754_infinity _ => None
  | f => Some f
  end.

(** [int(x)] for a float [x]: truncation towards zero. *)
Definition py_int (x : spec_float) : M Z :=
  match x with
  | S754_nan => raise ValueError
  | S754_infinity _ => raise OverflowError
  | S754_zero _ => ret 0
  | S754_finite s m e =>
      let a := if 0 <=? e then Z.pos m * 2 ^ e else Z.pos m / 2 ^ (- e) in
      ret (if s then - a else a)
  end.

(** The rational number a finite float stands for. *)
Definition SF2Q (x : spec_float) : Q :=
  match x with
  | S754_finite s m e =>
      let a := if 0 <=? e then inject_Z (Z.pos m * 2 ^ e)
               else Qmake (Z.pos m) (Z.to_pos (2 ^ (- e))) in
      if s then Qopp a else a
  | _ => 0%Q
  end.

(** ** The methods of [StableRandom] *)

(** Return the 32 least significant bits *)
Definition _int32 (x : Z) : Z := Z.land 0xFFFFFFFF x.

(** One iteration of the loop of [_twist] *)
Definition twist_body (i : Z) : M unit :=
  a <- mt_get i ;;
  b <- mt_get ((i + 1) mod 624) ;;
  let y := _int32 (Z.land a 0x80000000 + Z.land b 0x7fffffff) in
  c <- mt_get ((i + 397) mod 624) ;;
  mt_set i (Z.lxor c (Z.shiftr y 1)) ;;;
  if negb (y mod 2 =? 0) then
    d <- mt_get i ;;
    mt_set i (Z.lxor d 0x9908b0df)
  else ret tt.

(** Mersenne Twister *)
Definition _twist : M unit :=
  for_ (range 0 624) twist_body ;;;
  set_index 0.

(** The tempering of [random] *)
Definition temper (y : Z) : Z :=
  let y := Z.lxor y (Z.shiftr y 11) in
  let y := Z.lxor y (Z.land (Z.shiftl y 7) 2636928640) in
  let y := Z.lxor y (Z.land (Z.shiftl y 15) 4022730752) in
  Z.lxor y (Z.shiftr y 18).

(** [float(n) / 0xffffffff] *)
Definition to_unit (n : Z) : M spec_float :=
  x <- lift OverflowError (py_float n) ;;
  d <- lift OverflowError (py_float 0xffffffff) ;;
  ret (fdiv x d).

Definition random : M spec_float :=
  i <- get_index ;;
  (if 624 <=? i then _twist else ret tt) ;;;
  i <- get_index ;;
  y <- mt_get i ;;
  let y := temper y in
  i <- get_index ;;
  set_index (i + 1) ;;;
  to_unit (_int32 y).

Definition _randbelow (n : Z) : M Z :=
  x <- random ;;
  f <- lift OverflowError (py_float n) ;;
  py_int (fmul x f).

(** [seed(seed)]; [now] is the value of [int(time.time() * 256)] at the
    moment of the call. *)
Definition seed (sd : option Z) (now : Z) : M unit :=
  set_seed (match sd with Some x => x | None => now end).

Definition init_body (i : Z) : M unit :=
  p <- mt_get (i - 1) ;;
  q <- mt_get (i - 1) ;;
  mt_set i (_int32 (1812433253 * Z.lxor p (Z.shiftr q 30) + i)).

Definition __init__ (sd : option Z) (now : Z) : M unit :=
  seed sd now ;;;
  set_index 624 ;;;
  set_mt (replicate 624 0) ;;;
  (x <- get_seed ;; mt_set 0 x) ;;;
  for_ (range 1 624) init_body.

(** [self.mt[:], self.index]: the slice is a copy, so the tuple returned
    is a snapshot that later draws do not change. *)
Definition getstate : M (list Z * Z) :=
  fun s => Ok (mt s, index s) s.

(** [self.mt, self.index = state]: stored as given, without a check. *)
Definition setstate (state : list Z * Z) : M unit :=
  set_mt (fst state) ;;; set_index (snd state).

Definition jumpahead (n : Z) : M unit :=
  i <- get_index ;;
  set_index (i + n) ;;;
  random ;;; ret tt.

(** An object on which no attribute has been set yet; [__init__] assigns
    all three before reading any. *)
Definition blank : StableRandom := mkStableRandom 0 0 [].

(** [StableRandom(seed)] *)
Definition new (sd : option Z) (now : Z) : outcome unit := __init__ sd now blank.

(** [k] successive calls of [random], with the values returned *)
Fixpoint draws (k : nat) : M (list spec_float) :=
  match k with
  | O => ret []
  | S k' => x <- random ;; xs <- draws k' ;; ret (x :: xs)
  end.

Definition state_of {A} (o : outcome A) : StableRandom :=
  match o with Ok _ s => s | Raise _ s => s end.

Definition value_of {A} (o : outcome A) : option A :=
  match o with Ok a _ => Some a | Raise _ _ => None end.

(** ** Pure readings of the two array loops *)

Definition at_ (l : list Z) (i : Z) : Z := default 0 (l !! Z.to_nat i).

(** A loop that writes, at step [i], the value [g i l] computed from the
    array [l] as it stands when step [i] begins. *)
Section Sweep.
Variable g : Z -> list Z -> Z.

Definition step (i : Z) (l : list Z) : list Z := <[Z.to_nat i := g i l]> l.

Definition sweep (a n : Z) (l : list Z) : list Z :=
  foldl (fun l i => step i l) l (seqZ a n).
End Sweep.

Definition twist_mix (a b c : Z) : Z :=
  let y := _int32 (Z.land a 0x80000000 + Z.land b 0x7fffffff) in
  let v := Z.lxor c (Z.shiftr y 1) in
  if negb (y mod 2 =? 0) then Z.lxor v 0x9908b0df else v.

Definition twist_g (i : Z) (l : list Z) : Z :=
  twist_mix (at_ l i) (at_ l ((i + 1) mod 624)) (at_ l ((i + 397) mod 624)).

Definition twist_arr (l : list Z) : list Z := sweep twist_g 0 624 l.

Definition init_g (i : Z) (l : list Z) : Z :=
  _int32 (1812433253 * Z.lxor (at_ l (i - 1)) (Z.shiftr (at_ l (i - 1)) 30) + i).

Definition init_arr (x : Z) : list Z :=
  sweep init_g 1 623 (<[0%nat := x]> (replicate 624 0)).

Definition uint32 (x : Z) : Prop := 0 <= x <= 0xFFFFFFFF.

Definition with_mt (s : StableRandom) (l : list Z) : StableRandom :=
  mkStableRandom (_seed s) (index s) l.

(** The number of bits the rounding drops from a mantissa [m] at
    exponent [e]. *)
Definition cut (m e : Z) : Z := Z.max 0 (fexp prec emax (Zdigits2 m + e) - e).

(** Floats between zero and one *)
Definition unit_interval (x : spec_float) : Prop :=
  x = S754_zero false
  \/ exists p e, x = S754_finite false p e /\ -1074 <= e <= 0 /\ Z.pos p <= 2 ^ (- e)
                 /\ Z.pos p < 2 ^ 53.

(** [float(n) / 0xffffffff] as a value *)
Definition unit_float (n : Z) : spec_float :=
  SFdiv prec emax (binary_normalize prec emax n 0 false)
                  (binary_normalize prec emax 0xffffffff 0 false).

(** The integer [v] away from zero by at most [a], on the side [sg] *)
Definition within (sg : bool) (a v : Z) : Prop :=
  0 <= (if sg then - v else v) <= a.

(** The array and cursor a draw works on: regenerated when the cursor
    has reached the end of the array. *)
Definition regen (s : StableRandom) : list Z * Z :=
  if 624 <=? index s then (twist_arr (mt s), 0) else (mt s, index s).

(** What one pass of the twist leaves in [new], read against the array
    [old] it started from: position [i] is computed from [old] at [i],
    from position [i + 1] (which is position 0 of [new] at the last step)
    and from position [(i + 397) mod 624], which the pass has already
    overwritten once [i] has reached 227. *)
Definition twist_post (old new : list Z) : Prop :=
  length new = 624%nat
  /\ forall i, 0 <= i < 624 ->
       let nxt := at_ (if i <? 623 then old else new) ((i + 1) mod 624) in
       let far := at_ (if i <? 227 then old else new) ((i + 397) mod 624) in
       let y := _int32 (Z.land (at_ old i) 0x80000000 + Z.land nxt 0x7fffffff) in
       new !! Z.to_nat i
       = Some (if Z.odd y then Z.lxor (Z.lxor far (Z.shiftr y 1)) 0x9908b0df
               else Z.lxor far (Z.shiftr y 1)).

(** A generator as [StableRandom(0)] leaves it. *)
Definition fresh0 : StableRandom := mkStableRandom 0 624 (init_arr 0).

(** Cursor and number of regenerations after [k] draws that started
    with the cursor at [c]. *)
Definition cursor_after (c : Z) (k : nat) : Z :=
  match k with
  | O => c
  | S _ => (c + Z.of_nat k - 1) mod 624 + 1
  end.

Definition twists_after (c : Z) (k : nat) : nat :=
  match k with
  | O => 0%nat
  | S _ => Z.to_nat ((c + Z.of_nat k - 1) / 624)
  end.

(** The same object with another stored seed *)
Definition reseed (x : Z) (s : StableRandom) : StableRandom :=
  mkStableRandom x (index s) (mt s).

Definition omap {A} (f : StableRandom -> StableRandom) (o : outcome A) : outcome A :=
  match o with
  | Ok a s => Ok a (f s)
  | Raise e s => Raise e (f s)
  end.

(** A computation that neither reads nor writes the stored seed *)
Definition seedless {A} (m : M A) : Prop :=
  forall x s, m (reseed x s) = omap (reseed x) (m s).

(** A generator whose array has the 624 elements the loops assume *)
Definition wf (s : StableRandom) : Prop := length (mt s) = 624%nat.

(** The body of [random] after the regeneration test. *)
Definition extract (s : StableRandom) : outcome spec_float :=
  match getitem (mt s) (index s) with
  | Some y => Ok (unit_float (_int32 (temper y)))
                 (mkStableRandom (_seed s) (index s + 1) (mt s))
  | None => Raise IndexError s
  end.

(** The calls that act on the generator without installing a state from
    outside *)
Inductive op :=
| OpRandom
| OpBelow (n : Z)
| OpSeed (sd : option Z) (now : Z)
| OpGetstate
| OpJump (n : Z).

Definition run_op (o : op) (s : StableRandom) : StableRandom :=
  match o with
  | OpRandom => state_of (random s)
  | OpBelow n => state_of (_randbelow n s)
  | OpSeed sd now => state_of (seed sd now s)
  | OpGetstate => state_of (getstate s)
  | OpJump n => state_of (jumpahead n s)
  end.

Definition run_ops (ops : list op) (s : StableRandom) : StableRandom :=
  foldl (fun s o => run_op o s) s ops.

Definition is_draw (o : op) : bool :=
  match o with
  | OpRandom | OpBelow _ => true
  | OpSeed _ _ | OpGetstate | OpJump _ => false
  end.

Definition is_jump (o : op) : bool :=
  match o with
  | OpJump _ => true
  | _ => false
  end.

(** The array of a generator constructed with the seed [x]: positions 1
    to 623 are masked, position 0 is masked once a draw has regenerated
    the array and holds [x] as given until then. *)
Definition masked (x : Z) (drawn : bool) (s : StableRandom) : Prop :=
  wf s /\ 0 <= index s <= 624
  /\ (forall i, 1 <= i < 624 -> uint32 (at_ (mt s) i))
  /\ (if drawn then uint32 (at_ (mt s) 0)
      else index s = 624 /\ at_ (mt s) 0 = x).

(** What survives [jumpahead] as well, which may move the cursor
    anywhere: position 0 is masked or still holds [x]. *)
Definition masked_weak (x : Z) (s : StableRandom) : Prop :=
  wf s
  /\ (forall i, 1 <= i < 624 -> uint32 (at_ (mt s) i))
  /\ (uint32 (at_ (mt s) 0) \/ at_ (mt s) 0 = x).

(** The cursor of a generator that was constructed and then only drawn
    from: at 624 until the first draw, between 1 and 624 afterwards. *)
Definition cursor_inv (drawn : bool) (s : StableRandom) : Prop :=
  wf s /\ (if drawn then 1 else 624) <= index s <= 624.

(** Floats between zero and [1 - 2^-33] *)
Definition below_one (x : spec_float) : Prop :=
  x = S754_zero false
  \/ exists p e, x = S754_finite false p e /\ -1074 <= e <= -33
                 /\ Z.pos p <= (2 ^ 33 - 1) * 2 ^ (-33 - e) /\ Z.pos p < 2 ^ 53.

(** The 32-bit value a draw divides by 0xffffffff *)
Definition raw_draw (s : StableRandom) : Z :=
  _int32 (temper (at_ (fst (regen s)) (snd (regen s)))).

(** Solving [x = y xor L y] for [y] by [n] rounds of substitution *)
Fixpoint unshift (L : Z -> Z) (n : nat) (x : Z) : Z :=
  match n with
  | O => x
  | S n' => Z.lxor x (L (unshift L n' x))
  end.

(** The inverse of the tempering on 32-bit values *)
Definition untemper (o : Z) : Z :=
  let y := unshift (fun y => Z.shiftr y 18) 1 (_int32 o) in
  let y := unshift (fun y => Z.land (_int32 (Z.shiftl y 15)) 4022730752) 1 y in
  let y := unshift (fun y => Z.land (_int32 (Z.shiftl y 7)) 2636928640) 4 y in
  unshift (fun y => Z.shiftr y 11) 2 y.

Definition linear (f : Z -> Z) : Prop :=
  forall a b, f (Z.lxor a b) = Z.lxor (f a) (f b).

(** ** [gauss_next]

    The names [sqrt], [log], [cos] and [pi] are imported by a part of
    the module that is not at hand; they are taken as parameters, the
    three functions as pure functions of a float that return a float or
    raise. *)

Definition fadd : spec_float -> spec_float -> spec_float := SFadd prec emax.

(** The literals [1e-10], [2.0] and [-2.0] *)
Definition eps : spec_float := S754_finite false 7737125245533627 (-86).
Definition two : spec_float := S754_finite false 4503599627370496 (-51).
Definition neg_two : spec_float := S754_finite true 4503599627370496 (-51).

Definition one : spec_float := S754_finite false 4503599627370496 (-52).

Definition pure {A} (r : exn + A) : M A :=
  match r with
  | inl e => raise e
  | inr a => ret a
  end.

Section Gauss.
Variables sqrt log cos : spec_float -> exn + spec_float.
Variable pi : spec_float.

Definition gauss_next : M spec_float :=
  x1 <- random ;;
  x2 <- random ;;
  l <- pure (log (fadd x1 eps)) ;;
  r <- pure (sqrt (fmul neg_two l)) ;;
  c <- pure (cos (fmul (fmul two pi) x2)) ;;
  ret (fmul r c).
End Gauss.

(** [math.sqrt]: the correctly rounded root, and a [ValueError] below
    zero *)
Definition math_sqrt (x : spec_float) : exn + spec_float :=
  match x with
  | S754_finite true _ _ | S754_infinity true => inl ValueError
  | _ => inr (SFsqrt prec emax x)
  end.

(** [y - 1], the logarithm near 1 to first order; and a cosine that is
    never reached.  They stand for [log] and [cos] where an instance is
    needed. *)
Definition log_near_one (y : spec_float) : exn + spec_float :=
  inr (SFsub prec emax y one).

Definition cos_unused (y : spec_float) : exn + spec_float := inr y.

(** The generator [StableRandom(31792009)] after 223 draws *)
Definition ones_state : StableRandom :=
  state_of (draws 223 (state_of (new (Some 31792009) 0))).

(** * Lemmas *)

(** ** Bits *)

Lemma _int32_mod x : _int32 x = x mod 2 ^ 32.
Proof.
  unfold _int32. rewrite Z.land_comm.
  change 0xFFFFFFFF with (Z.ones 32). apply Z.land_ones. lia.
Qed.

Lemma _int32_uint32 x : uint32 (_int32 x).
Proof.
  rewrite _int32_mod. unfold uint32.
  pose proof (Z.mod_pos_bound x (2 ^ 32) ltac:(lia)). lia.
Qed.

Lemma _int32_id x : uint32 x -> _int32 x = x.
Proof.
  intros [H1 H2]. rewrite _int32_mod. apply Z.mod_small. lia.
Qed.

Lemma uint32_lxor a b : uint32 a -> uint32 b -> uint32 (Z.lxor a b).
Proof.
  intros [Ha1 Ha2] [Hb1 Hb2]. unfold uint32.
  assert (H0 : 0 <= Z.lxor a b) by (apply Z.lxor_nonneg; tauto).
  split; [exact H0|].
  destruct (Z.eq_dec (Z.lxor a b) 0) as [->|Hne]; [lia|].
  assert (Hlt : Z.lxor a b < 2 ^ 32); [|lia].
  apply Z.log2_lt_pow2; [lia|].
  pose proof (Z.log2_lxor a b Ha1 Hb1) as Hl.
  assert (Z.log2 a < 32).
  { destruct (Z.eq_dec a 0) as [->|]; [simpl; lia|].
    apply Z.log2_lt_pow2; lia. }
  assert (Z.log2 b < 32).
  { destruct (Z.eq_dec b 0) as [->|]; [simpl; lia|].
    apply Z.log2_lt_pow2; lia. }
  lia.
Qed.

Lemma uint32_shiftr a n : 0 <= n -> uint32 a -> uint32 (Z.shiftr a n).
Proof.
  intros Hn [H1 H2]. rewrite Z.shiftr_div_pow2 by lia. unfold uint32.
  assert (0 < 2 ^ n) by (apply Z.pow_pos_nonneg; lia).
  split; [apply Z.div_pos; lia|].
  transitivity a; [|lia].
  apply Z.div_le_upper_bound; [lia|]. nia.
Qed.

Lemma uint32_land_r a b : uint32 b -> uint32 (Z.land a b).
Proof.
  intros Hb. rewrite <- (_int32_id b Hb). unfold _int32.
  rewrite Z.land_assoc, (Z.land_comm a), <- Z.land_assoc.
  apply _int32_uint32.
Qed.

Lemma twist_mix_uint32 a b c : uint32 c -> uint32 (twist_mix a b c).
Proof.
  intros Hc. unfold twist_mix.
  set (y := _int32 _).
  assert (Hy : uint32 y) by apply _int32_uint32.
  assert (Hv : uint32 (Z.lxor c (Z.shiftr y 1))).
  { apply uint32_lxor; [done|]. apply uint32_shiftr; [lia|done]. }
  destruct (negb _); [|done].
  apply uint32_lxor; [done|]. unfold uint32. lia.
Qed.

Lemma temper_uint32 y : uint32 y -> uint32 (temper y).
Proof.
  intros Hy. unfold temper.
  repeat first
    [ apply uint32_lxor
    | apply uint32_shiftr; [lia|]
    | apply uint32_land_r; unfold uint32; lia
    | assumption ].
Qed.

(** ** Sequential array loops *)

Section SweepFacts.
Variable g : Z -> list Z -> Z.

Lemma length_step i l : length (step g i l) = length l.
Proof. apply length_insert. Qed.

Lemma length_foldl_step js l :
  length (foldl (fun l i => step g i l) l js) = length l.
Proof.
  revert l. induction js as [|j js IH]; intros l; simpl; [done|].
  by rewrite IH, length_step.
Qed.

Lemma length_sweep a n l : length (sweep g a n l) = length l.
Proof. apply length_foldl_step. Qed.

Lemma sweep_app a n1 n2 l :
  0 <= n1 -> 0 <= n2 ->
  sweep g a (n1 + n2) l = sweep g (a + n1) n2 (sweep g a n1 l).
Proof.
  intros H1 H2. unfold sweep. by rewrite seqZ_app, foldl_app.
Qed.

Lemma sweep_one a l : sweep g a 1 l = step g a l.
Proof. reflexivity. Qed.

Lemma foldl_step_lookup_out js l (p : nat) :
  (forall j, j ∈ js -> Z.to_nat j <> p) ->
  foldl (fun l i => step g i l) l js !! p = l !! p.
Proof.
  revert l. induction js as [|j js IH]; intros l Hjs; simpl; [done|].
  rewrite IH.
  - unfold step. apply list_lookup_insert_ne. apply Hjs. left.
  - intros j' Hj'. apply Hjs. by right.
Qed.

(** A position outside the range of the loop keeps its value. *)
Lemma sweep_lookup_out a n l (p : nat) :
  0 <= a -> Z.of_nat p < a \/ a + n <= Z.of_nat p ->
  sweep g a n l !! p = l !! p.
Proof.
  intros Ha Hp. apply foldl_step_lookup_out.
  intros j Hj. apply elem_of_seqZ in Hj. lia.
Qed.

(** Position [i] holds what step [i] wrote, computed from the array
    left by the steps before [i]. *)
Lemma sweep_lookup_in a n l i :
  0 <= a <= i -> i < a + n -> (Z.to_nat i < length l)%nat ->
  sweep g a n l !! Z.to_nat i = Some (g i (sweep g a (i - a) l)).
Proof.
  intros Ha Hi Hlen.
  replace n with ((i - a) + (1 + (n - (i - a) - 1))) by lia.
  rewrite sweep_app by lia.
  replace (a + (i - a)) with i by lia.
  rewrite (sweep_app i 1) by lia.
  rewrite sweep_lookup_out by lia.
  rewrite sweep_one. unfold step.
  apply list_lookup_insert_eq. by rewrite length_sweep.
Qed.

Lemma at_sweep_out a n l q :
  0 <= a -> 0 <= q -> q < a \/ a + n <= q ->
  at_ (sweep g a n l) q = at_ l q.
Proof.
  intros Ha Hq Hout. unfold at_. rewrite sweep_lookup_out; [done|lia|lia].
Qed.

Lemma at_sweep_in a n l i :
  0 <= a <= i -> i < a + n -> i < Z.of_nat (length l) ->
  at_ (sweep g a n l) i = g i (sweep g a (i - a) l).
Proof.
  intros Ha Hi Hlen. unfold at_. rewrite sweep_lookup_in; [done|lia|lia|lia].
Qed.

(** While the loop runs, the positions already passed hold their final
    values. *)
Lemma at_sweep_prefix a n k l q :
  0 <= a <= q -> q < a + k -> k <= n -> q < Z.of_nat (length l) ->
  at_ (sweep g a k l) q = at_ (sweep g a n l) q.
Proof.
  intros Ha Hq Hk Hlen. rewrite !at_sweep_in; [done|lia..].
Qed.
End SweepFacts.

(** ** The monadic primitives on a well-formed array *)

Lemma py_index_nonneg len i :
  0 <= i < Z.of_nat len -> py_index len i = Some (Z.to_nat i).
Proof.
  intros [H1 H2]. unfold py_index.
  destruct (Z.leb_spec 0 i); [|lia]. destruct (Z.ltb_spec i (Z.of_nat len)); [done|lia].
Qed.

Lemma mt_get_ok i s :
  0 <= i < Z.of_nat (length (mt s)) -> mt_get i s = Ok (at_ (mt s) i) s.
Proof.
  intros Hi. unfold mt_get, getitem, at_. rewrite py_index_nonneg by done.
  destruct (lookup_lt_is_Some_2 (mt s) (Z.to_nat i)) as [v Hv]; [lia|].
  by rewrite Hv.
Qed.

Lemma mt_set_ok i v s :
  0 <= i < Z.of_nat (length (mt s)) ->
  mt_set i v s = Ok tt (with_mt s (<[Z.to_nat i := v]> (mt s))).
Proof.
  intros Hi. unfold mt_set, setitem. by rewrite py_index_nonneg.
Qed.

(** A loop whose body performs one [step] is a [sweep]. *)
Lemma for_sweep (body : Z -> M unit) g (N : nat) a n :
  (forall i s, a <= i < a + n -> length (mt s) = N ->
               body i s = Ok tt (with_mt s (step g i (mt s)))) ->
  forall s, length (mt s) = N ->
    for_ (seqZ a n) body s = Ok tt (with_mt s (sweep g a n (mt s))).
Proof.
  intros Hbody.
  destruct (Z.le_gt_cases n 0) as [Hn|Hn].
  { intros s _. unfold sweep. rewrite seqZ_nil by lia. by destruct s. }
  assert (Hgen : forall (k : nat) b s, a <= b -> b + Z.of_nat k <= a + n ->
            length (mt s) = N ->
            for_ (seqZ b (Z.of_nat k)) body s
            = Ok tt (with_mt s (sweep g b (Z.of_nat k) (mt s)))).
  { induction k as [|k IH]; intros b s Hb Hk Hlen.
    - by destruct s.
    - unfold sweep. rewrite seqZ_cons by lia. simpl.
      unfold bind. rewrite Hbody by lia.
      replace (Z.pred (Z.of_nat (S k))) with (Z.of_nat k) by lia.
      rewrite IH; [done|lia|lia|].
      simpl. by rewrite length_step. }
  intros s Hlen. specialize (Hgen (Z.to_nat n) a s).
  rewrite Z2Nat.id in Hgen by lia. apply Hgen; [lia|lia|done].
Qed.

(** ** The two loops of the source *)

Arguments sweep : simpl never.
Arguments twist_arr : simpl never.
Arguments init_arr : simpl never.

Lemma twist_body_ok i s :
  0 <= i < 624 -> wf s ->
  twist_body i s = Ok tt (with_mt s (step twist_g i (mt s))).
Proof.
  intros Hi Hwf. unfold wf in Hwf.
  pose proof (Z.mod_pos_bound (i + 1) 624 ltac:(lia)).
  pose proof (Z.mod_pos_bound (i + 397) 624 ltac:(lia)).
  unfold twist_body, bind.
  rewrite !mt_get_ok by (rewrite Hwf; lia).
  rewrite mt_set_ok by (rewrite Hwf; lia).
  unfold step, twist_g, twist_mix.
  set (y := _int32 _).
  destruct (negb (y mod 2 =? 0)); [|done].
  rewrite mt_get_ok by (cbn [mt with_mt]; rewrite length_insert, Hwf; lia).
  rewrite mt_set_ok by (cbn [mt with_mt]; rewrite length_insert, Hwf; lia).
  unfold with_mt, at_. cbn [mt index _seed].
  rewrite list_lookup_insert_eq by lia. cbn [default].
  by rewrite list_insert_insert_eq.
Qed.

Lemma _twist_ok s :
  wf s -> _twist s = Ok tt (mkStableRandom (_seed s) 0 (twist_arr (mt s))).
Proof.
  intros Hwf. unfold _twist, bind, range.
  rewrite (for_sweep twist_body twist_g 624 0 624); [|clear s Hwf|exact Hwf].
  - unfold set_index, with_mt, twist_arr. cbn [_seed index mt]. reflexivity.
  - intros i s Hi Hs. apply twist_body_ok; [lia|exact Hs].
Qed.

Lemma length_twist_arr l : length (twist_arr l) = length l.
Proof. apply length_sweep. Qed.

Lemma init_body_ok i s :
  1 <= i < 624 -> wf s ->
  init_body i s = Ok tt (with_mt s (step init_g i (mt s))).
Proof.
  intros Hi Hwf. unfold wf in Hwf.
  unfold init_body, bind.
  rewrite !mt_get_ok by (rewrite Hwf; lia).
  by rewrite mt_set_ok by (rewrite Hwf; lia).
Qed.

Lemma length_init_arr x : length (init_arr x) = 624%nat.
Proof.
  unfold init_arr. by rewrite length_sweep, length_insert, length_replicate.
Qed.

Lemma new_ok sd now :
  new sd now
  = let x := match sd with Some x => x | None => now end in
    Ok tt (mkStableRandom x 624 (init_arr x)).
Proof.
  unfold new, __init__, bind, seed, range, set_seed, set_index, set_mt,
    get_seed, blank.
  cbn [mt index _seed].
  rewrite mt_set_ok by (cbn [mt]; rewrite length_replicate; lia).
  rewrite (for_sweep init_body init_g 624 1 623).
  - unfold with_mt, init_arr. cbn [_seed index mt]. reflexivity.
  - intros i s Hi Hs. apply init_body_ok; [lia|exact Hs].
  - cbn [mt with_mt]. rewrite length_insert. apply length_replicate.
Qed.

Lemma odd_test y : negb (y mod 2 =? 0) = Z.odd y.
Proof.
  rewrite Zmod_odd. by destruct (Z.odd y).
Qed.

(** How the array left by the first [i] steps of the twist reads: final
    values below [i], the values from before the pass from [i] on. *)
Lemma at_twist_partial l i q :
  length l = 624%nat -> 0 <= i <= 624 -> 0 <= q < 624 ->
  at_ (sweep twist_g 0 i l) q = at_ (if q <? i then twist_arr l else l) q.
Proof.
  intros Hlen Hi Hq. destruct (Z.ltb_spec q i).
  - unfold twist_arr. apply at_sweep_prefix; lia.
  - apply at_sweep_out; lia.
Qed.

Lemma twist_arr_lookup l i :
  length l = 624%nat -> 0 <= i < 624 ->
  twist_arr l !! Z.to_nat i
  = Some (twist_mix (at_ l i)
            (at_ (if i <? 623 then l else twist_arr l) ((i + 1) mod 624))
            (at_ (if i <? 227 then l else twist_arr l) ((i + 397) mod 624))).
Proof.
  intros Hlen Hi. unfold twist_arr at 1.
  rewrite sweep_lookup_in by lia. rewrite Z.sub_0_r.
  unfold twist_g. f_equal.
  pose proof (Z.mod_pos_bound (i + 1) 624 ltac:(lia)).
  pose proof (Z.mod_pos_bound (i + 397) 624 ltac:(lia)).
  rewrite !at_twist_partial by lia.
  rewrite Z.ltb_irrefl.
  f_equal.
  - destruct (Z.ltb_spec i 623).
    + rewrite Z.mod_small by lia. by destruct (Z.ltb_spec (i + 1) i); [lia|].
    + replace i with 623 by lia. reflexivity.
  - destruct (Z.ltb_spec i 227).
    + rewrite Z.mod_small by lia. by destruct (Z.ltb_spec (i + 397) i); [lia|].
    + replace ((i + 397) mod 624) with (i - 227).
      * by destruct (Z.ltb_spec (i - 227) i); [|lia].
      * apply (Z.mod_unique_pos _ _ 1); lia.
Qed.

Lemma _twist_index s a s' : _twist s = Ok a s' -> index s' = 0.
Proof.
  unfold _twist, bind. destruct (for_ _ _ s); [|discriminate].
  unfold set_index. by intros [= _ <-].
Qed.

Lemma bind_ext_at {A B} (m : M A) (k k' : A -> M B) s :
  (forall a s', m s = Ok a s' -> k a s' = k' a s') ->
  bind m k s = bind m k' s.
Proof.
  intros H. unfold bind. destruct (m s); [by apply H|done].
Qed.

(** A draw with the cursor at 624 or beyond is a twist followed by a
    draw that does not twist. *)
Lemma random_twists s :
  624 <= index s -> random s = (_twist ;;; random) s.
Proof.
  intros Hi. unfold random at 1, bind at 1, get_index at 1.
  destruct (Z.leb_spec 624 (index s)); [|lia].
  apply bind_ext_at. intros a s' Htw.
  apply _twist_index in Htw. symmetry.
  unfold random, bind at 1, get_index at 1. rewrite Htw.
  reflexivity.
Qed.

Lemma init_arr_lookup_0 x : init_arr x !! 0%nat = Some x.
Proof.
  unfold init_arr. rewrite sweep_lookup_out by lia. reflexivity.
Qed.

Lemma init_arr_lookup x i :
  1 <= i <= 623 ->
  init_arr x !! Z.to_nat i
  = Some (_int32 (1812433253
                  * Z.lxor (at_ (init_arr x) (i - 1))
                           (Z.shiftr (at_ (init_arr x) (i - 1)) 30) + i)).
Proof.
  intros Hi. unfold init_arr at 1.
  set (base := <[0%nat := x]> (replicate 624 0)).
  assert (Hbase : length base = 624%nat).
  { unfold base. rewrite length_insert. apply length_replicate. }
  rewrite sweep_lookup_in by lia.
  change (init_g i ?l)
    with (_int32 (1812433253 * Z.lxor (at_ l (i - 1)) (Z.shiftr (at_ l (i - 1)) 30) + i)).
  assert (Hat : at_ (sweep init_g 1 (i - 1) base) (i - 1) = at_ (init_arr x) (i - 1)).
  { unfold init_arr. fold base.
    destruct (Z.eq_dec i 1) as [->|Hne].
    - rewrite !at_sweep_out by lia. reflexivity.
    - apply at_sweep_prefix; lia. }
  rewrite !Hat. reflexivity.
Qed.

(** ** Binary64 rounding *)

Lemma pow2_pos k : 0 <= k -> 0 < 2 ^ k.
Proof. intros. apply Z.pow_pos_nonneg; lia. Qed.

Lemma pow2_split a b : 0 <= a <= b -> 2 ^ b = 2 ^ a * 2 ^ (b - a).
Proof.
  intros H. rewrite <- Z.pow_add_r by lia. f_equal. lia.
Qed.

Lemma digits2_size p : digits2_pos p = Pos.size p.
Proof. induction p; simpl; congruence. Qed.

Lemma Zdigits2_bounds m :
  0 < m -> 2 ^ (Zdigits2 m - 1) <= m < 2 ^ Zdigits2 m.
Proof.
  destruct m as [|p|p]; try lia. intros _. simpl Zdigits2.
  rewrite digits2_size.
  pose proof (Pos.size_gt p) as Hgt. pose proof (Pos.size_le p) as Hle.
  apply Pos2Z.pos_lt_pos in Hgt. apply Pos2Z.pos_le_pos in Hle.
  rewrite Pos2Z.inj_pow in Hgt, Hle.
  change (Z.pos p~0) with (2 * Z.pos p) in Hle.
  rewrite (pow2_split 1 (Z.pos (Pos.size p))) in Hle by lia.
  change (2 ^ 1) with 2 in Hle. lia.
Qed.

Lemma Zdigits2_nonneg m : 0 <= Zdigits2 m.
Proof. destruct m; simpl; lia. Qed.

Lemma Zdigits2_le m k : 0 <= k -> 0 <= m < 2 ^ k -> Zdigits2 m <= k.
Proof.
  intros Hk [H0 Hm].
  destruct (Z.eq_dec m 0) as [->|Hne]; [simpl; lia|].
  pose proof (Zdigits2_bounds m ltac:(lia)) as [Hlo _].
  destruct (Z.le_gt_cases (Zdigits2 m) k) as [|Hgt]; [done|].
  assert (2 ^ k <= 2 ^ (Zdigits2 m - 1)) by (apply Z.pow_le_mono_r; lia).
  lia.
Qed.

Lemma Zdigits2_ge m k : 0 <= k -> 2 ^ k <= m -> k + 1 <= Zdigits2 m.
Proof.
  intros Hk Hm. pose proof (pow2_pos k Hk).
  pose proof (Zdigits2_bounds m ltac:(lia)) as [_ Hhi].
  destruct (Z.le_gt_cases (k + 1) (Zdigits2 m)) as [|Hgt]; [done|].
  pose proof (Zdigits2_nonneg m).
  assert (2 ^ Zdigits2 m <= 2 ^ k) by (apply Z.pow_le_mono_r; lia).
  lia.
Qed.

Lemma shr_1_m mrs : 0 <= shr_m mrs -> shr_m (shr_1 mrs) = shr_m mrs / 2.
Proof.
  destruct mrs as [m r s]. simpl. intros Hm.
  rewrite <- Z.div2_div.
  destruct m as [|[p|p|]|p]; try reflexivity; lia.
Qed.

Lemma iter_shr_m p : forall mrs,
  0 <= shr_m mrs -> shr_m (SpecFloat.iter_pos shr_1 p mrs) = shr_m mrs / 2 ^ Z.pos p.
Proof.
  induction p as [p IH|p IH|]; intros mrs Hm; simpl SpecFloat.iter_pos.
  - assert (H1 : 0 <= shr_m (shr_1 mrs)).
    { rewrite shr_1_m by done. apply Z.div_pos; lia. }
    assert (H2 : 0 <= shr_m (SpecFloat.iter_pos shr_1 p (shr_1 mrs))).
    { rewrite IH by done. apply Z.div_pos; [done|]. by apply pow2_pos. }
    rewrite IH, IH, shr_1_m by done.
    pose proof (pow2_pos (Z.pos p) ltac:(lia)).
    rewrite !Z.div_div by lia. f_equal.
    replace (Z.pos p~1) with (1 + Z.pos p + Z.pos p) by lia.
    rewrite !Z.pow_add_r by lia. change (2 ^ 1) with 2. lia.
  - assert (H2 : 0 <= shr_m (SpecFloat.iter_pos shr_1 p mrs)).
    { rewrite IH by done. apply Z.div_pos; [done|]. by apply pow2_pos. }
    rewrite IH, IH by done.
    pose proof (pow2_pos (Z.pos p) ltac:(lia)).
    rewrite !Z.div_div by lia. f_equal.
    replace (Z.pos p~0) with (Z.pos p + Z.pos p) by lia.
    rewrite !Z.pow_add_r by lia. lia.
  - rewrite shr_1_m by done. reflexivity.
Qed.

Lemma shr_record_of_loc_m m l : shr_m (shr_record_of_loc m l) = m.
Proof. by destruct l as [|[]]. Qed.


Lemma shr_fexp_spec m e l :
  0 <= m ->
  shr_m (fst (shr_fexp prec emax m e l)) = m / 2 ^ cut m e
  /\ snd (shr_fexp prec emax m e l) = e + cut m e.
Proof.
  intros Hm. unfold shr_fexp, shr, cut.
  destruct (fexp prec emax (Zdigits2 m + e) - e) as [|p|p] eqn:Hk; simpl fst; simpl snd.
  - rewrite shr_record_of_loc_m. simpl. rewrite Z.div_1_r. lia.
  - rewrite iter_shr_m by (by rewrite shr_record_of_loc_m).
    rewrite shr_record_of_loc_m.
    replace (Z.max 0 (Z.pos p)) with (Z.pos p) by lia. done.
  - rewrite shr_record_of_loc_m.
    replace (Z.max 0 (Z.neg p)) with 0 by lia. simpl. rewrite Z.div_1_r. lia.
Qed.

Lemma round_nearest_even_bounds m l :
  m <= round_nearest_even m l <= m + 1.
Proof.
  destruct l as [|[]]; simpl; try lia. destruct (Z.even m); lia.
Qed.

(** What [binary_round_aux] returns on a non-negative mantissa: the
    mantissa is cut, rounded up by at most one, and cut again. *)
Lemma binary_round_aux_spec s m e l :
  0 <= m ->
  exists m1 : Z,
    let e1 := e + cut m e in
    let m2 := m1 / 2 ^ cut m1 e1 in
    let e2 := e1 + cut m1 e1 in
    m / 2 ^ cut m e <= m1 <= m / 2 ^ cut m e + 1
    /\ binary_round_aux prec emax s m e l
       = match m2 with
         | Z0 => S754_zero s
         | Z.pos p => if e2 <=? emax - prec then S754_finite s p e2
                      else S754_infinity s
         | Z.neg _ => S754_nan
         end.
Proof.
  intros Hm. unfold binary_round_aux.
  destruct (shr_fexp_spec m e l Hm) as [Hm1 He1].
  destruct (shr_fexp prec emax m e l) as [mrs1 e1]. simpl in Hm1, He1.
  set (m1 := round_nearest_even (shr_m mrs1) (loc_of_shr_record mrs1)).
  pose proof (round_nearest_even_bounds (shr_m mrs1) (loc_of_shr_record mrs1)) as Hr.
  fold m1 in Hr. rewrite Hm1 in Hr.
  assert (Hm1' : 0 <= m1).
  { assert (0 <= m / 2 ^ cut m e); [|lia].
    apply Z.div_pos; [done|]. apply pow2_pos. unfold cut. lia. }
  destruct (shr_fexp_spec m1 e1 loc_Exact Hm1') as [Hm2 He2].
  destruct (shr_fexp prec emax m1 e1 loc_Exact) as [mrs2 e2]. simpl in Hm2, He2.
  exists m1. cbv zeta. split; [done|].
  rewrite <- He1, <- Hm2, <- He2. reflexivity.
Qed.

Lemma fexp_eq t : fexp prec emax t = Z.max (t - 53) (-1074).
Proof. reflexivity. Qed.

Lemma cut_eq m e : e + cut m e = Z.max e (Z.max (Zdigits2 m + e - 53) (-1074)).
Proof. unfold cut. rewrite fexp_eq. lia. Qed.

Lemma cut_nonneg m e : 0 <= cut m e.
Proof. unfold cut. lia. Qed.

(** Rounding a value below [B * 2 ^ g], where that bound is itself on
    the grid of the format, does not step over the bound. *)
Lemma round_bound s m e l B g :
  0 <= m -> e <= g -> -1074 <= g <= 971 -> 0 < B < 2 ^ 53 ->
  m < B * 2 ^ (g - e) ->
  binary_round_aux prec emax s m e l = S754_zero s
  \/ exists p e2,
       binary_round_aux prec emax s m e l = S754_finite s p e2
       /\ -1074 <= e2 <= g /\ Z.pos p <= B * 2 ^ (g - e2) /\ Z.pos p < 2 ^ 53.
Proof.
  intros Hm Heg Hg HB Hlt.
  destruct (binary_round_aux_spec s m e l Hm) as (m1 & Hm1 & ->).
  cbv zeta in *.
  pose proof (cut_nonneg m e) as Hk1. pose proof (cut_eq m e) as He1.
  set (k1 := cut m e) in *. set (e1 := e + k1) in *.
  pose proof (pow2_pos (g - e) ltac:(lia)) as Hpge.
  assert (Hdm : Zdigits2 m <= 53 + (g - e)).
  { apply Zdigits2_le; [lia|]. split; [done|].
    rewrite Z.pow_add_r by lia. nia. }
  assert (He1g : e1 <= g) by lia.
  pose proof (pow2_pos k1 Hk1) as Hpk1.
  pose proof (pow2_pos (g - e1) ltac:(lia)) as Hpge1.
  assert (Hq : m / 2 ^ k1 < B * 2 ^ (g - e1)).
  { apply Z.div_lt_upper_bound; [done|].
    replace (g - e) with (k1 + (g - e1)) in Hlt by lia.
    rewrite Z.pow_add_r in Hlt by lia. lia. }
  assert (Hq0 : 0 <= m / 2 ^ k1) by (apply Z.div_pos; lia).
  assert (Hm1b : 0 <= m1 <= B * 2 ^ (g - e1)) by lia.
  pose proof (cut_nonneg m1 e1) as Hk2. pose proof (cut_eq m1 e1) as He2.
  set (k2 := cut m1 e1) in *. set (e2 := e1 + k2) in *.
  assert (Hdm1 : Zdigits2 m1 <= 53 + (g - e1)).
  { apply Zdigits2_le; [lia|]. split; [lia|].
    rewrite Z.pow_add_r by lia. nia. }
  assert (He2g : e2 <= g) by lia.
  pose proof (pow2_pos k2 Hk2) as Hpk2.
  pose proof (pow2_pos (g - e2) ltac:(lia)) as Hpge2.
  assert (Hm2 : 0 <= m1 / 2 ^ k2 <= B * 2 ^ (g - e2)).
  { split; [apply Z.div_pos; lia|].
    apply Z.div_le_upper_bound; [done|].
    replace (g - e1) with (k2 + (g - e2)) in Hm1b by lia.
    rewrite Z.pow_add_r in Hm1b by lia. lia. }
  assert (Hm2' : m1 / 2 ^ k2 < 2 ^ 53).
  { apply Z.div_lt_upper_bound; [done|].
    rewrite <- Z.pow_add_r by lia.
    destruct (Z.eq_dec m1 0) as [->|Hne]; [apply pow2_pos; lia|].
    pose proof (Zdigits2_bounds m1 ltac:(lia)) as [_ Hhi].
    pose proof (Zdigits2_nonneg m1).
    assert (2 ^ Zdigits2 m1 <= 2 ^ (k2 + 53)) by (apply Z.pow_le_mono_r; lia).
    lia. }
  destruct (m1 / 2 ^ k2) as [|p|p] eqn:Hdiv; [by left| |lia].
  right. exists p, e2.
  destruct (Z.leb_spec e2 (emax - prec)) as [|Hbad]; [|unfold emax, prec in Hbad; lia].
  repeat split; try lia.
Qed.

Lemma Zdigits2_eq m k : 0 < k -> 2 ^ (k - 1) <= m < 2 ^ k -> Zdigits2 m = k.
Proof.
  intros Hk [Hlo Hhi].
  pose proof (pow2_pos (k - 1) ltac:(lia)).
  pose proof (Zdigits2_le m k ltac:(lia) ltac:(lia)).
  pose proof (Zdigits2_ge m (k - 1) ltac:(lia) Hlo). lia.
Qed.

(** A mantissa of full width is left as it is. *)
Lemma round_exact s p e :
  Zdigits2 (Z.pos p) = 53 -> -1074 <= e <= 971 ->
  binary_round_aux prec emax s (Z.pos p) e loc_Exact = S754_finite s p e.
Proof.
  intros Hd He.
  assert (Hcut : fexp prec emax (Zdigits2 (Z.pos p) + e) - e = 0).
  { rewrite Hd, fexp_eq. lia. }
  unfold binary_round_aux, shr_fexp. rewrite Hcut. cbn [shr shr_record_of_loc].
  cbn [shr_m loc_of_shr_record round_nearest_even]. rewrite Hcut. cbn [shr shr_m shr_record_of_loc].
  destruct (Z.leb_spec e (emax - prec)) as [|Hbad]; [done|].
  unfold emax, prec in Hbad. lia.
Qed.

Lemma iter_xO p d : Z.pos (Pos.iter xO p d) = Z.pos p * 2 ^ Z.pos d.
Proof.
  induction d as [|d IH] using Pos.peano_ind.
  - simpl. lia.
  - rewrite Pos.iter_succ, Pos2Z.inj_xO, IH, Pos2Z.inj_succ, Z.pow_succ_r by lia. lia.
Qed.

(** Rounding an integer of at most 53 bits only normalises it. *)
Lemma binary_round_exact sg q :
  Z.pos q < 2 ^ 53 ->
  exists p e,
    binary_round prec emax sg q 0 = S754_finite sg p e
    /\ -52 <= e <= 0 /\ Z.pos p = Z.pos q * 2 ^ (- e) /\ 2 ^ 52 <= Z.pos p < 2 ^ 53.
Proof.
  intros Hn.
  pose proof (Zdigits2_bounds (Z.pos q) ltac:(lia)) as [Hlo Hhi].
  pose proof (Zdigits2_le (Z.pos q) 53 ltac:(lia) ltac:(lia)) as Hd.
  assert (Hd1 : 1 <= Zdigits2 (Z.pos q)) by (simpl; lia).
  set (d := Zdigits2 (Z.pos q)) in *.
  unfold binary_round, shl_align.
  change (Z.pos (digits2_pos q)) with d.
  rewrite Z.add_0_r, fexp_eq.
  assert (Hfull : 2 ^ 52 <= Z.pos q * 2 ^ (53 - d) < 2 ^ 53).
  { pose proof (pow2_pos (53 - d) ltac:(lia)).
    rewrite (pow2_split (d - 1) 52), (pow2_split d 53) by lia.
    replace (52 - (d - 1)) with (53 - d) by lia. nia. }
  destruct (Z.max (d - 53) (-1074) - 0) as [|k|k] eqn:Hk.
  - exists q, 0. replace (53 - d) with 0 in Hfull by lia.
    rewrite Z.mul_1_r in Hfull.
    rewrite round_exact; [|by apply Zdigits2_eq|lia].
    repeat split; simpl; lia.
  - lia.
  - exists (Pos.iter xO q k), (d - 53).
    assert (HK : Z.pos k = 53 - d) by lia.
    pose proof (iter_xO q k) as Hit. rewrite HK in Hit.
    replace (Z.max (d - 53) (-1074)) with (d - 53) by lia.
    rewrite round_exact; [|apply Zdigits2_eq; lia|lia].
    replace (- (d - 53)) with (53 - d) by lia.
    repeat split; lia.
Qed.

(** [float(n)] is exact for an integer of at most 53 bits. *)
Lemma binary_normalize_exact n :
  0 < n < 2 ^ 53 ->
  exists p e,
    binary_normalize prec emax n 0 false = S754_finite false p e
    /\ -52 <= e <= 0 /\ Z.pos p = n * 2 ^ (- e) /\ 2 ^ 52 <= Z.pos p < 2 ^ 53.
Proof.
  intros [Hn0 Hn]. destruct n as [|q|q]; try lia.
  apply (binary_round_exact false q Hn).
Qed.

Lemma binary_normalize_exact_neg n :
  - 2 ^ 53 < n < 0 ->
  exists p e,
    binary_normalize prec emax n 0 false = S754_finite true p e
    /\ -52 <= e <= 0 /\ Z.pos p = - n * 2 ^ (- e) /\ 2 ^ 52 <= Z.pos p < 2 ^ 53.
Proof.
  intros [Hn Hn0]. destruct n as [|q|q]; try lia.
  apply (binary_round_exact true q). lia.
Qed.

Lemma shr_1_double m :
  0 <= m ->
  shr_1 (Build_shr_record (2 * m) false false) = Build_shr_record m false false.
Proof.
  intros Hm. destruct m as [|p|p]; [reflexivity|reflexivity|lia].
Qed.

(** Dropping bits that are all zero loses nothing. *)
Lemma iter_shr_exact p : forall m,
  0 <= m ->
  SpecFloat.iter_pos shr_1 p (Build_shr_record (m * 2 ^ Z.pos p) false false)
  = Build_shr_record m false false.
Proof.
  induction p as [p IH|p IH|]; intros m Hm; cbn [SpecFloat.iter_pos].
  - pose proof (pow2_pos (Z.pos p) ltac:(lia)).
    replace (m * 2 ^ Z.pos p~1) with (2 * ((m * 2 ^ Z.pos p) * 2 ^ Z.pos p)).
    + rewrite shr_1_double by nia. rewrite IH by nia. by apply IH.
    + replace (Z.pos p~1) with (1 + Z.pos p + Z.pos p) by lia.
      rewrite !Z.pow_add_r by lia. change (2 ^ 1) with 2. lia.
  - pose proof (pow2_pos (Z.pos p) ltac:(lia)).
    replace (m * 2 ^ Z.pos p~0) with ((m * 2 ^ Z.pos p) * 2 ^ Z.pos p).
    + rewrite IH by nia. by apply IH.
    + replace (Z.pos p~0) with (Z.pos p + Z.pos p) by lia.
      rewrite !Z.pow_add_r by lia. lia.
  - replace (m * 2 ^ 1) with (2 * m) by lia. by apply shr_1_double.
Qed.

(** A full-width mantissa followed by [k] zero bits rounds to itself. *)
Lemma round_exact_shifted s p e k :
  Zdigits2 (Z.pos p) = 53 -> -1074 <= e <= 971 -> 0 <= k ->
  binary_round_aux prec emax s (Z.pos p * 2 ^ k) (e - k) loc_Exact
  = S754_finite s p e.
Proof.
  intros Hd He Hk.
  destruct (Z.eq_dec k 0) as [->|Hk0].
  { rewrite Z.mul_1_r, Z.sub_0_r. by apply round_exact. }
  pose proof (pow2_pos k Hk) as Hpk.
  pose proof (Zdigits2_bounds (Z.pos p) ltac:(lia)) as Hb. rewrite Hd in Hb.
  assert (Hdm : Zdigits2 (Z.pos p * 2 ^ k) = 53 + k).
  { apply Zdigits2_eq; [lia|].
    replace (53 + k - 1) with (52 + k) by lia.
    rewrite !Z.pow_add_r by lia. nia. }
  assert (Hcut : fexp prec emax (Zdigits2 (Z.pos p * 2 ^ k) + (e - k)) - (e - k) = k).
  { rewrite Hdm, fexp_eq. lia. }
  assert (Hcut2 : fexp prec emax (Zdigits2 (Z.pos p) + e) - e = 0).
  { rewrite Hd, fexp_eq. lia. }
  unfold binary_round_aux, shr_fexp. rewrite Hcut.
  cbn [shr_record_of_loc]. unfold shr.
  destruct k as [|k|k]; [lia| |lia].
  rewrite iter_shr_exact by lia.
  cbn [shr_m loc_of_shr_record round_nearest_even].
  replace (e - Z.pos k + Z.pos k) with e by lia.
  rewrite Hcut2. cbn [shr_record_of_loc shr_m].
  destruct (Z.leb_spec e (emax - prec)) as [|Hbad]; [done|].
  unfold emax, prec in Hbad. lia.
Qed.

(** The quotient of a float by a larger one of the same width is at
    most one. *)
Lemma fdiv_le_one px ex py ey :
  2 ^ 52 <= Z.pos px < 2 ^ 53 -> 2 ^ 52 <= Z.pos py < 2 ^ 53 ->
  -500 <= ex <= ey -> ey <= 500 ->
  Z.pos px < Z.pos py * 2 ^ (ey - ex) ->
  unit_interval (SFdiv prec emax (S754_finite false px ex) (S754_finite false py ey)).
Proof.
  intros Hx Hy He1 He2 Hlt.
  unfold SFdiv, SFdiv_core_binary.
  rewrite (Zdigits2_eq (Z.pos px) 53), (Zdigits2_eq (Z.pos py) 53) by lia.
  rewrite fexp_eq.
  replace (Z.min (Z.max (53 + ex - (53 + ey) - 53) (-1074)) (ex - ey))
    with (ex - ey - 53) by lia.
  replace (ex - ey - (ex - ey - 53)) with 53 by lia.
  rewrite Z.shiftl_mul_pow2 by lia.
  pose proof (Z.div_eucl_eq (Z.pos px * 2 ^ 53) (Z.pos py) ltac:(lia)) as Hdiv.
  pose proof (Z.mod_pos_bound (Z.pos px * 2 ^ 53) (Z.pos py) ltac:(lia)) as Hmod.
  unfold Z.modulo in Hmod.
  destruct (Z.div_eucl (Z.pos px * 2 ^ 53) (Z.pos py)) as [q r].
  pose proof (pow2_pos (ey - ex) ltac:(lia)) as Hp.
  assert (Hq0 : 0 < q) by nia.
  assert (Hq : q < 1 * 2 ^ (0 - (ex - ey - 53))).
  { replace (0 - (ex - ey - 53)) with ((ey - ex) + 53) by lia.
    rewrite Z.pow_add_r by lia. nia. }
  destruct (round_bound (xorb false false) q (ex - ey - 53) (new_location (Z.pos py) r) 1 0)
    as [Hz|(p & e & Hr & He & Hp1 & Hp2)]; try lia.
  - by left.
  - right. exists p, e. rewrite Hr. simpl xorb. split; [done|]. split; [lia|].
    rewrite Z.mul_1_l, Z.sub_0_l in Hp1. done.
Qed.

Lemma float_max32 :
  binary_normalize prec emax 0xffffffff 0 false
  = S754_finite false 9007199252643840 (-21).
Proof. reflexivity. Qed.

Lemma unit_float_interval n :
  0 <= n <= 0xffffffff -> unit_interval (unit_float n).
Proof.
  intros Hn. unfold unit_float. rewrite float_max32.
  destruct (Z.eq_dec n 0) as [->|Hn0]; [by left|].
  destruct (Z.eq_dec n 0xffffffff) as [->|HnM].
  { right. exists 4503599627370496%positive, (-52). by vm_compute. }
  destruct (binary_normalize_exact n) as (p & e & -> & He & Hp & Hfull); [lia|].
  pose proof (pow2_pos (- e) ltac:(lia)) as Hpe.
  assert (He21 : e <= -21).
  { destruct (Z.le_gt_cases e (-21)) as [|Hgt]; [done|].
    assert (2 ^ (- e) <= 2 ^ 20) by (apply Z.pow_le_mono_r; lia).
    assert (n * 2 ^ (- e) < 2 ^ 32 * 2 ^ 20) by nia.
    change (2 ^ 32 * 2 ^ 20) with (2 ^ 52) in *. lia. }
  apply fdiv_le_one; try lia.
  rewrite Hp, (pow2_split 21 (- e)) by lia.
  replace (-21 - e) with (- e - 21) by lia.
  pose proof (pow2_pos (- e - 21) ltac:(lia)).
  change (2 ^ 21) with 2097152. nia.
Qed.

Lemma unit_interval_SF2Q x :
  unit_interval x -> (0 <= SF2Q x <= 1)%Q.
Proof.
  intros [->|(p & e & -> & He & Hp & _)]; [by vm_compute|].
  unfold SF2Q. pose proof (pow2_pos (- e) ltac:(lia)) as Hpe.
  destruct (Z.leb_spec 0 e).
  - replace e with 0 in * by lia. simpl in Hp.
    unfold Qle. simpl. lia.
  - unfold Qle. simpl Qnum. simpl Qden. rewrite Z2Pos.id by lia. lia.
Qed.

(** ** One draw *)

Lemma py_float_uint32 n :
  uint32 n -> py_float n = Some (binary_normalize prec emax n 0 false).
Proof.
  intros [H0 Hn]. unfold py_float.
  destruct (Z.eq_dec n 0) as [->|Hne]; [reflexivity|].
  destruct (binary_normalize_exact n) as (p & e & -> & _); [lia|done].
Qed.

Lemma to_unit_ok n s : uint32 n -> to_unit n s = Ok (unit_float n) s.
Proof.
  intros Hn. unfold to_unit, bind.
  rewrite py_float_uint32 by done.
  rewrite py_float_uint32 by (unfold uint32; lia).
  reflexivity.
Qed.

Lemma random_unfold s :
  random s
  = match (if 624 <=? index s then _twist s else Ok tt s) with
    | Ok _ s1 => extract s1
    | Raise e s1 => Raise e s1
    end.
Proof.
  unfold random, bind at 1, get_index at 1. unfold bind at 1.
  destruct (624 <=? index s).
  - destruct (_twist s) as [a s1|e s1]; [|done].
    unfold bind, get_index, mt_get, extract.
    destruct (getitem (mt s1) (index s1)) as [y|]; [|done].
    unfold lift, ret, set_index. cbn [_seed index mt].
    apply to_unit_ok, _int32_uint32.
  - unfold ret, bind, get_index, mt_get, extract.
    destruct (getitem (mt s) (index s)) as [y|]; [|done].
    unfold lift, ret, set_index. cbn [_seed index mt].
    apply to_unit_ok, _int32_uint32.
Qed.

Lemma getitem_nonneg l i :
  0 <= i < Z.of_nat (length l) -> getitem l i = Some (at_ l i).
Proof.
  intros Hi. unfold getitem, at_. rewrite py_index_nonneg by done.
  destruct (lookup_lt_is_Some_2 l (Z.to_nat i)) as [v ->]; [lia|done].
Qed.

Lemma getitem_is_Some l i :
  - Z.of_nat (length l) <= i < Z.of_nat (length l) -> is_Some (getitem l i).
Proof.
  intros Hi. unfold getitem, py_index.
  destruct (Z.leb_spec 0 i).
  - destruct (Z.ltb_spec i (Z.of_nat (length l))); [|lia].
    apply lookup_lt_is_Some_2. lia.
  - destruct (Z.leb_spec (- Z.of_nat (length l)) i); [|lia].
    apply lookup_lt_is_Some_2. lia.
Qed.

Lemma regen_length s : wf s -> length (fst (regen s)) = 624%nat.
Proof.
  intros Hwf. unfold regen. destruct (624 <=? index s); cbn [fst]; [|done].
  by rewrite length_twist_arr.
Qed.

Lemma regen_cursor s : -624 <= index s -> -624 <= snd (regen s) < 624.
Proof.
  intros Hi. unfold regen. destruct (Z.leb_spec 624 (index s)); cbn [snd]; lia.
Qed.

Lemma random_regen s :
  wf s ->
  random s = extract (mkStableRandom (_seed s) (snd (regen s)) (fst (regen s))).
Proof.
  intros Hwf. rewrite random_unfold. unfold regen.
  destruct (624 <=? index s); cbn [fst snd].
  - by rewrite _twist_ok.
  - by destruct s.
Qed.

(** A draw on a well-formed generator whose cursor is not negative. *)
Lemma random_ok s :
  wf s -> 0 <= index s ->
  random s
  = Ok (unit_float (_int32 (temper (at_ (fst (regen s)) (snd (regen s))))))
       (mkStableRandom (_seed s) (snd (regen s) + 1) (fst (regen s))).
Proof.
  intros Hwf Hi. rewrite random_regen by done.
  unfold extract. cbn [_seed index mt].
  rewrite getitem_nonneg; [done|].
  rewrite regen_length by done.
  unfold regen. destruct (Z.leb_spec 624 (index s)); cbn [snd]; lia.
Qed.

(** ** Many draws *)

Lemma draws_state k : forall s,
  wf s -> 0 <= index s <= 624 ->
  exists outs,
    draws k s
    = Ok outs (mkStableRandom (_seed s) (cursor_after (index s) k)
                 (Nat.iter (twists_after (index s) k) twist_arr (mt s)))
    /\ length outs = k.
Proof.
  induction k as [|k IH]; intros s Hwf Hi.
  - exists []. split; [by destruct s|done].
  - cbn [draws]. unfold bind at 1. rewrite (random_ok s Hwf) by lia.
    set (s1 := mkStableRandom _ _ _).
    assert (Hwf1 : wf s1) by (unfold wf, s1; cbn [mt]; by apply regen_length).
    assert (Hreg : regen s = if 624 <=? index s then (twist_arr (mt s), 0)
                             else (mt s, index s)) by reflexivity.
    assert (Hi1 : 0 <= index s1 <= 624).
    { unfold s1. cbn [index]. rewrite Hreg.
      destruct (Z.leb_spec 624 (index s)); cbn [snd]; lia. }
    destruct (IH s1 Hwf1 Hi1) as (outs & Hd & Hlen).
    exists (unit_float (_int32 (temper (at_ (fst (regen s)) (snd (regen s))))) :: outs).
    unfold bind. rewrite Hd. unfold ret. split; [|cbn [length]; by rewrite Hlen].
    f_equal. unfold s1. cbn [_seed index mt]. rewrite Hreg.
    destruct (Z.leb_spec 624 (index s)) as [Hge|Hlt]; cbn [fst snd].
    + replace (index s) with 624 by lia.
      destruct k as [|k'].
      * unfold cursor_after, twists_after.
        change ((624 + Z.of_nat 1 - 1) mod 624 + 1) with (0 + 1).
        change (Z.to_nat ((624 + Z.of_nat 1 - 1) / 624)) with 1%nat.
        cbv [Nat.iter nat_rect]. reflexivity.
      * unfold cursor_after, twists_after. f_equal.
        -- f_equal.
           replace (624 + Z.of_nat (S (S k')) - 1) with (0 + 1 + Z.of_nat (S k') - 1 + 1 * 624) by lia.
           by rewrite Z.mod_add by lia.
        -- replace (624 + Z.of_nat (S (S k')) - 1) with (0 + 1 + Z.of_nat (S k') - 1 + 1 * 624) by lia.
           rewrite Z.div_add by lia.
           rewrite Z2Nat.inj_add; [|apply Z.div_pos; lia|lia].
           rewrite Nat.add_comm. change (Z.to_nat 1) with 1%nat.
           cbn [Nat.add]. by rewrite Nat.iter_succ_r.
    + destruct k as [|k'].
      * unfold cursor_after, twists_after. f_equal.
        -- replace (index s + Z.of_nat 1 - 1) with (index s) by lia.
           rewrite Z.mod_small by lia. reflexivity.
        -- replace (index s + Z.of_nat 1 - 1) with (index s) by lia.
           rewrite Z.div_small by lia. reflexivity.
      * unfold cursor_after, twists_after.
        replace (index s + 1 + Z.of_nat (S k') - 1) with (index s + Z.of_nat (S (S k')) - 1) by lia.
        reflexivity.
Qed.

Lemma cursor_after_full k :
  624 <= cursor_after 624 k <-> Z.of_nat k mod 624 = 0.
Proof.
  unfold cursor_after. destruct k as [|k]; [done|].
  Z.div_mod_to_equations. lia.
Qed.

Lemma twists_after_count k :
  Z.of_nat (twists_after 624 k) = (Z.of_nat k + 623) / 624.
Proof.
  unfold twists_after. destruct k as [|k]; [done|].
  rewrite Z2Nat.id by (apply Z.div_pos; lia). f_equal. lia.
Qed.

Lemma cursor_after_624 : cursor_after 624 624 = 624.
Proof. reflexivity. Qed.

Lemma twists_after_624 : twists_after 624 624 = 1%nat.
Proof. reflexivity. Qed.

(** The 625th draw of a generator that starts with the cursor at 624 *)
Lemma draw_625 s :
  wf s -> index s = 624 ->
  value_of ((draws 624 ;;; random) s)
  = Some (unit_float (_int32 (temper (at_ (twist_arr (twist_arr (mt s))) 0)))).
Proof.
  intros Hwf Hi.
  destruct (draws_state 624 s Hwf ltac:(lia)) as (outs & Hd & _).
  rewrite Hi, cursor_after_624, twists_after_624 in Hd.
  unfold bind. rewrite Hd.
  set (s1 := mkStableRandom _ _ _).
  assert (Hwf1 : wf s1).
  { unfold wf, s1. cbn [mt]. unfold Nat.iter, nat_rect. by rewrite length_twist_arr. }
  assert (Hi1 : index s1 = 624) by reflexivity.
  rewrite (random_ok s1 Hwf1) by lia.
  unfold regen. rewrite Hi1. reflexivity.
Qed.

(** ** Computations that do not touch the stored seed *)

Lemma seedless_ret {A} (a : A) : seedless (ret a).
Proof. done. Qed.

Lemma seedless_raise {A} e : seedless (@raise A e).
Proof. done. Qed.

Lemma seedless_bind {A B} (m : M A) (k : A -> M B) :
  seedless m -> (forall a, seedless (k a)) -> seedless (bind m k).
Proof.
  intros Hm Hk x s. unfold bind. rewrite Hm.
  destruct (m s) as [a s'|e s']; cbn [omap]; [apply Hk|done].
Qed.

Lemma seedless_lift {A} e (o : option A) : seedless (lift e o).
Proof. by destruct o. Qed.

Lemma seedless_get_index : seedless get_index.
Proof. done. Qed.

Lemma seedless_set_index i : seedless (set_index i).
Proof. done. Qed.

Lemma seedless_mt_get i : seedless (mt_get i).
Proof.
  intros x s. unfold mt_get, reseed. cbn [mt].
  by destruct (getitem (mt s) i).
Qed.

Lemma seedless_mt_set i v : seedless (mt_set i v).
Proof.
  intros x s. unfold mt_set, reseed. cbn [mt].
  by destruct (setitem (mt s) i v).
Qed.

Lemma seedless_for_ l body :
  (forall i, seedless (body i)) -> seedless (for_ l body).
Proof.
  intros Hb. induction l as [|i l IH]; cbn [for_].
  - apply seedless_ret.
  - apply seedless_bind; [apply Hb|]. intros _. apply IH.
Qed.

Ltac seedless_tac :=
  cbv zeta;
  repeat lazymatch goal with
    | |- seedless (bind _ _) => apply seedless_bind; [|intros ?]
    | |- seedless (for_ _ _) => apply seedless_for_; intros ?
    | |- seedless (if ?b then _ else _) => destruct b
    | |- seedless (ret _) => apply seedless_ret
    | |- seedless (lift _ _) => apply seedless_lift
    | |- seedless get_index => apply seedless_get_index
    | |- seedless (set_index _) => apply seedless_set_index
    | |- seedless (mt_get _) => apply seedless_mt_get
    | |- seedless (mt_set _ _) => apply seedless_mt_set
    | |- seedless _ => assumption
    end.

Lemma seedless_twist : seedless _twist.
Proof. unfold _twist, twist_body. seedless_tac. Qed.

Lemma seedless_random : seedless random.
Proof.
  unfold random, to_unit. pose proof seedless_twist. seedless_tac.
Qed.

Lemma seedless_draws k : seedless (draws k).
Proof.
  induction k as [|k IH]; cbn [draws]; [apply seedless_ret|].
  pose proof seedless_random. seedless_tac.
Qed.

(** ** [int(random() * n)] *)

Lemma py_float_neg n :
  - 2 ^ 53 < n < 0 ->
  exists p e,
    py_float n = Some (S754_finite true p e)
    /\ -52 <= e <= 0 /\ Z.pos p = - n * 2 ^ (- e) /\ 2 ^ 52 <= Z.pos p < 2 ^ 53.
Proof.
  intros Hn. destruct (binary_normalize_exact_neg n Hn) as (p & e & Hf & H).
  exists p, e. unfold py_float. by rewrite Hf.
Qed.

Lemma py_float_pos n :
  0 < n < 2 ^ 53 ->
  exists p e,
    py_float n = Some (S754_finite false p e)
    /\ -52 <= e <= 0 /\ Z.pos p = n * 2 ^ (- e) /\ 2 ^ 52 <= Z.pos p < 2 ^ 53.
Proof.
  intros Hn. destruct (binary_normalize_exact n Hn) as (p & e & Hf & H).
  exists p, e. unfold py_float. by rewrite Hf.
Qed.

Lemma py_int_bound sg p e a s :
  -1074 <= e <= 0 -> 0 <= a -> Z.pos p <= a * 2 ^ (- e) ->
  exists v, py_int (S754_finite sg p e) s = Ok v s /\ within sg a v.
Proof.
  intros He Ha Hp. unfold py_int, ret, within.
  pose proof (pow2_pos (- e) ltac:(lia)) as Hpe.
  destruct (Z.leb_spec 0 e).
  - replace e with 0 in * by lia. simpl in Hp.
    eexists. split; [reflexivity|]. destruct sg; simpl; lia.
  - eexists. split; [reflexivity|].
    assert (Z.pos p / 2 ^ (- e) <= a)
      by (apply Z.div_le_upper_bound; lia).
    assert (0 <= Z.pos p / 2 ^ (- e)) by (apply Z.div_pos; lia).
    destruct sg; lia.
Qed.

(** The product of a float of the unit interval and an integer of
    absolute value [a] and at most 53 bits truncates to an integer
    between 0 and that integer. *)
Lemma fmul_unit_int x sg pf ef a s :
  unit_interval x ->
  2 ^ 52 <= Z.pos pf < 2 ^ 53 -> -52 <= ef <= 0 -> 0 <= a ->
  Z.pos pf = a * 2 ^ (- ef) ->
  exists v, py_int (fmul x (S754_finite sg pf ef)) s = Ok v s /\ within sg a v.
Proof.
  intros [->|(px & ex & -> & Hex & Hpx & Hpx53)] Hpf Hef Ha Hval.
  { exists 0. split; [reflexivity|]. unfold within. destruct sg; lia. }
  unfold fmul, SFmul. cbn [xorb]. rewrite Pos2Z.inj_mul.
  pose proof (pow2_pos (- ex) ltac:(lia)) as Hpe.
  destruct (Z.eq_dec (Z.pos px) (2 ^ (- ex))) as [Heq|Hne].
  - rewrite Heq, Z.mul_comm.
    replace (ex + ef) with (ef - (- ex)) by lia.
    rewrite round_exact_shifted; [|apply Zdigits2_eq; lia|lia|lia].
    apply py_int_bound; lia.
  - destruct (round_bound sg (Z.pos px * Z.pos pf) (ex + ef) loc_Exact (Z.pos pf) ef)
      as [->|(p & e2 & -> & He2 & Hp & _)]; try lia.
    + replace (ef - (ex + ef)) with (- ex) by lia. nia.
    + exists 0. split; [reflexivity|]. unfold within. destruct sg; lia.
    + apply py_int_bound; [lia|lia|].
      rewrite Hval in Hp.
      replace (- e2) with (- ef + (ef - e2)) by lia.
      rewrite Z.pow_add_r by lia. lia.
Qed.

Lemma fmul_unit_zero x s :
  unit_interval x -> py_int (fmul x (S754_zero false)) s = Ok 0 s.
Proof.
  by intros [->|(px & ex & -> & _)].
Qed.

(** ** The 32-bit invariant *)

Lemma at_lookup (l : list Z) i v : l !! Z.to_nat i = Some v -> at_ l i = v.
Proof. intros H. unfold at_. by rewrite H. Qed.

Lemma init_arr_masked x i : 1 <= i < 624 -> uint32 (at_ (init_arr x) i).
Proof.
  intros Hi. rewrite (at_lookup _ _ _ (init_arr_lookup x i ltac:(lia))).
  apply _int32_uint32.
Qed.

(** One regeneration masks the whole array, position 0 included. *)
Lemma twist_arr_masked l :
  length l = 624%nat ->
  (forall i, 1 <= i < 624 -> uint32 (at_ l i)) ->
  forall i, 0 <= i < 624 -> uint32 (at_ (twist_arr l) i).
Proof.
  intros Hlen Hl.
  assert (Hind : forall n : nat, forall i, (Z.to_nat i < n)%nat -> 0 <= i < 624 ->
            uint32 (at_ (twist_arr l) i)).
  { induction n as [|n IH]; intros i Hn Hi; [lia|].
    rewrite (at_lookup _ _ _ (twist_arr_lookup l i Hlen Hi)).
    apply twist_mix_uint32.
    destruct (Z.ltb_spec i 227).
    - apply Hl. rewrite Z.mod_small by lia. lia.
    - assert (Hm : (i + 397) mod 624 = i - 227)
        by (symmetry; apply (Z.mod_unique_pos _ _ 1); lia).
      rewrite Hm. apply IH; lia. }
  intros i Hi. apply (Hind (S (Z.to_nat i))); [lia|done].
Qed.

Lemma state_of_randbelow n s : state_of (_randbelow n s) = state_of (random s).
Proof.
  unfold _randbelow, bind.
  destruct (random s) as [x s1|e s1]; [|done].
  destruct (py_float n) as [f|]; [|done].
  cbn [lift]. unfold ret.
  by destruct (fmul x f) as [?|?| |[] ? ?].
Qed.

Lemma masked_random x d s : masked x d s -> masked x true (state_of (random s)).
Proof.
  intros (Hwf & Hi & Hrest & H0).
  rewrite (random_ok s Hwf) by lia. cbn [state_of].
  unfold masked, wf, regen. cbn [mt index].
  destruct (Z.leb_spec 624 (index s)) as [Hge|Hlt]; cbn [fst snd].
  - pose proof (twist_arr_masked (mt s) Hwf Hrest) as Hall.
    split; [by rewrite length_twist_arr|]. split; [lia|].
    split; [intros i Hi'; apply Hall; lia|apply Hall; lia].
  - destruct d; [|lia].
    split; [done|]. split; [lia|]. split; done.
Qed.

Lemma masked_run_op x d o s :
  is_jump o = false ->
  masked x d s -> masked x (d || is_draw o) (run_op o s).
Proof.
  intros Hj H. destruct o as [|n|sd now| |n]; cbn [run_op is_draw]; [..|done].
  - rewrite orb_true_r. by apply masked_random with d.
  - rewrite orb_true_r, state_of_randbelow. by apply masked_random with d.
  - by rewrite orb_false_r.
  - by rewrite orb_false_r.
Qed.

Lemma masked_run_ops x ops : forall d s,
  existsb is_jump ops = false ->
  masked x d s -> masked x (d || existsb is_draw ops) (run_ops ops s).
Proof.
  induction ops as [|o ops IH]; intros d s Hj H; cbn [existsb] in *.
  - by rewrite orb_false_r.
  - apply orb_false_elim in Hj as [Ho Hops].
    rewrite orb_assoc. apply (IH _ _ Hops (masked_run_op x d o s Ho H)).
Qed.

Lemma mt_state_of_random s : wf s -> mt (state_of (random s)) = fst (regen s).
Proof.
  intros Hwf. rewrite random_regen by done. unfold extract. cbn [mt index].
  by destruct (getitem _ _).
Qed.

Lemma masked_weak_random x s :
  masked_weak x s -> masked_weak x (state_of (random s)).
Proof.
  intros (Hwf & Hrest & H0). unfold masked_weak, wf.
  rewrite (mt_state_of_random s Hwf). unfold regen.
  destruct (624 <=? index s); cbn [fst]; [|done].
  pose proof (twist_arr_masked (mt s) Hwf Hrest) as Hall.
  split; [by rewrite length_twist_arr|].
  split; [intros i Hi; apply Hall; lia|left; apply Hall; lia].
Qed.

Lemma state_of_jumpahead n s :
  state_of (jumpahead n s)
  = state_of (random (mkStableRandom (_seed s) (index s + n) (mt s))).
Proof.
  unfold jumpahead, bind, get_index, set_index.
  by destruct (random _).
Qed.

Lemma masked_weak_run_op x o s :
  masked_weak x s -> masked_weak x (run_op o s).
Proof.
  intros H. destruct o as [|n|sd now| |n]; cbn [run_op].
  - by apply masked_weak_random.
  - rewrite state_of_randbelow. by apply masked_weak_random.
  - done.
  - done.
  - rewrite state_of_jumpahead. by apply masked_weak_random.
Qed.

Lemma masked_weak_run_ops x ops : forall s,
  masked_weak x s -> masked_weak x (run_ops ops s).
Proof.
  induction ops as [|o ops IH]; intros s H; [done|].
  apply (IH _ (masked_weak_run_op x o s H)).
Qed.

Lemma masked_weaken x d s : masked x d s -> masked_weak x s.
Proof.
  intros (Hwf & _ & Hrest & H0). split; [done|]. split; [done|].
  destruct d; [by left|right; apply H0].
Qed.

Lemma masked_new sd now :
  masked (match sd with Some x => x | None => now end) false
         (state_of (new sd now)).
Proof.
  rewrite new_ok. cbv zeta. cbn [state_of].
  set (x := match sd with Some x => x | None => now end).
  unfold masked, wf. cbn [mt index].
  split; [apply length_init_arr|]. split; [lia|].
  split; [apply init_arr_masked|].
  split; [done|]. apply at_lookup, init_arr_lookup_0.
Qed.

(** For a positive bound of at most 53 bits [_randbelow] returns an
    integer between 0 and the bound, the bound included. *)
Lemma below_range_closed (n : Z) (s : StableRandom) :
  0 < n < 2 ^ 53 -> wf s -> 0 <= index s ->
  exists v,
    _randbelow n s = Ok v (state_of (random s))
    /\ 0 <= v <= n.
Proof.
  intros Hn Hwf Hi. unfold _randbelow, bind.
  rewrite (random_ok s Hwf Hi). cbn [state_of].
  set (x := unit_float _).
  assert (Hx : unit_interval x) by apply unit_float_interval, _int32_uint32.
  destruct (py_float_pos n Hn) as (p & e & -> & He & Hp & Hfull).
  cbn [lift]. unfold ret.
  destruct (fmul_unit_int x false p e n
              (mkStableRandom (_seed s) (snd (regen s) + 1) (fst (regen s))))
    as (v & Hv & Hb); try done; try lia.
  exists v. split; [done|]. unfold within in Hb. lia.
Qed.

(** * The claims *)

(** C1. The twist updates the 624 elements in place and in index order:
    element [i] is computed from element [i], element [(i + 1) mod 624]
    and element [(i + 397) mod 624] of the array as the pass has left it
    so far, with the extra XOR by 0x9908b0df when [y] is odd; the cursor
    ends at 0; and a draw with the cursor at 624 or beyond runs the twist
    first. *)
Theorem twist_in_place (s : StableRandom) :
  wf s ->
  (exists new,
      _twist s = Ok tt (mkStableRandom (_seed s) 0 new)
      /\ twist_post (mt s) new)
  /\ (624 <= index s -> random s = (_twist ;;; random) s).
Proof.
  intros Hwf. split; [|apply random_twists].
  exists (twist_arr (mt s)). split; [by apply _twist_ok|].
  split; [by rewrite length_twist_arr|].
  intros i Hi. cbv zeta.
  rewrite twist_arr_lookup by done.
  unfold twist_mix. by rewrite odd_test.
Qed.

Lemma twist_in_place_witness :
  wf fresh0
  /\ ((exists new,
         _twist fresh0 = Ok tt (mkStableRandom (_seed fresh0) 0 new)
         /\ twist_post (mt fresh0) new)
      /\ (624 <= index fresh0 -> random fresh0 = (_twist ;;; random) fresh0)).
Proof.
  split; [vm_compute; reflexivity|].
  apply (twist_in_place fresh0). vm_compute; reflexivity.
Defined.

(** C2. Construction with the seed [x] stores [x] at position 0, fills
    positions 1 to 623 by the recurrence on the previous element, and
    sets the cursor to 624, so that the first draw regenerates the array
    before it returns a value. *)
Theorem init_recurrence (x now : Z) :
  exists l,
    new (Some x) now = Ok tt (mkStableRandom x 624 l)
    /\ length l = 624%nat
    /\ l !! 0%nat = Some x
    /\ (forall i, 1 <= i <= 623 ->
          l !! Z.to_nat i
          = Some (_int32 (1812433253
                          * Z.lxor (at_ l (i - 1)) (Z.shiftr (at_ l (i - 1)) 30)
                          + i)))
    /\ random (mkStableRandom x 624 l)
       = Ok (unit_float (_int32 (temper (at_ (twist_arr l) 0))))
            (mkStableRandom x 1 (twist_arr l)).
Proof.
  exists (init_arr x). rewrite new_ok. cbv zeta.
  split; [reflexivity|].
  split; [apply length_init_arr|].
  split; [apply init_arr_lookup_0|].
  split; [apply init_arr_lookup|].
  assert (Hwf : wf (mkStableRandom x 624 (init_arr x))).
  { unfold wf. cbn [mt]. apply length_init_arr. }
  rewrite (random_ok _ Hwf) by (cbn [index]; lia).
  reflexivity.
Qed.

(** C3. A draw regenerates the array when the cursor is at 624 or
    beyond, reads the element under the cursor, tempers it, moves the
    cursor by one and returns the masked value divided by 0xffffffff.
    The value is a finite float between 0 and 1, and both ends are
    reached: by the 40th draw of [StableRandom(27494765)] and by the
    224th draw of [StableRandom(31792009)]. *)
Theorem random_draw :
  (forall s, wf s -> -624 <= index s ->
     exists y,
       getitem (fst (regen s)) (snd (regen s)) = Some y
       /\ random s
          = Ok (unit_float (_int32 (temper y)))
               (mkStableRandom (_seed s) (snd (regen s) + 1) (fst (regen s)))
       /\ unit_interval (unit_float (_int32 (temper y)))
       /\ (0 <= SF2Q (unit_float (_int32 (temper y))) <= 1)%Q)
  /\ (exists x, value_of ((draws 39 ;;; random) (state_of (new (Some 27494765) 0))) = Some x
                /\ (SF2Q x == 0)%Q)
  /\ (exists x, value_of ((draws 223 ;;; random) (state_of (new (Some 31792009) 0))) = Some x
                /\ (SF2Q x == 1)%Q).
Proof.
  split; [|split].
  - intros s Hwf Hi.
    destruct (getitem_is_Some (fst (regen s)) (snd (regen s))) as [y Hy].
    { rewrite regen_length by done. pose proof (regen_cursor s Hi). lia. }
    exists y. split; [done|]. split.
    + rewrite random_regen by done. unfold extract. cbn [_seed index mt].
      by rewrite Hy.
    + pose proof (unit_float_interval _ (_int32_uint32 (temper y))) as Hu.
      split; [exact Hu|by apply unit_interval_SF2Q].
  - exists (S754_zero false). split; [by vm_compute|reflexivity].
  - exists (S754_finite false 4503599627370496 (-52)).
    split; [by vm_compute|reflexivity].
Qed.

Lemma random_draw_witness :
  wf fresh0 /\ -624 <= index fresh0
  /\ exists y,
       getitem (fst (regen fresh0)) (snd (regen fresh0)) = Some y
       /\ random fresh0
          = Ok (unit_float (_int32 (temper y)))
               (mkStableRandom (_seed fresh0) (snd (regen fresh0) + 1)
                               (fst (regen fresh0)))
       /\ unit_interval (unit_float (_int32 (temper y)))
       /\ (0 <= SF2Q (unit_float (_int32 (temper y))) <= 1)%Q.
Proof.
  split; [vm_compute; reflexivity|].
  split; [vm_compute; discriminate|].
  apply (proj1 random_draw fresh0); [vm_compute; reflexivity|vm_compute; discriminate].
Defined.

(** C4, as the code has it.  With seed 0 the first draw is
    0.5488135024320365 up to 1e-12, and the call of [_randbelow(10)]
    that follows returns 5; the 6 of the docstring is what
    [randint(1, 10)] makes of it by adding its lower bound. *)
Theorem seed0_scenario (now : Z) :
  exists x s1,
    random (state_of (new (Some 0) now)) = Ok x s1
    /\ ((5488135024320365 # 10000000000000000) - (1 # 1000000000000) <= SF2Q x)%Q
    /\ (SF2Q x <= (5488135024320365 # 10000000000000000) + (1 # 1000000000000))%Q
    /\ value_of (_randbelow 10 s1) = Some 5.
Proof.
  rewrite new_ok. cbv zeta. cbn [state_of].
  exists (S754_finite false 4943272570097633 (-53)),
         (state_of (random (mkStableRandom 0 624 (init_arr 0)))).
  split; [by vm_compute|].
  split; [by vm_compute|]. split; [by vm_compute|].
  by vm_compute.
Qed.

(** C4, as the spec words it, fails: the call of [_randbelow(10)] after
    the first draw does not return 6. *)
Lemma seed0_below_not_6 :
  exists v,
    value_of ((random ;;; _randbelow 10) (state_of (new (Some 0) 0))) = Some v
    /\ v <> 6.
Proof.
  exists 5. split; [by vm_compute|lia].
Qed.

(** C5, as the code has it.  [_randbelow] checks nothing: for a bound
    [n <= 0] (of at most 53 bits, so that [float(n)] is exact) it raises
    no exception, consumes one draw and returns [int(random() * n)], an
    integer between [n] and 0; for [n = 0] that is 0. *)
Theorem below_no_validation (n : Z) (s : StableRandom) :
  - 2 ^ 53 < n <= 0 -> wf s -> 0 <= index s ->
  exists v,
    _randbelow n s = Ok v (state_of (random s))
    /\ n <= v <= 0.
Proof.
  intros Hn Hwf Hi. unfold _randbelow, bind.
  rewrite (random_ok s Hwf Hi). cbn [state_of].
  set (x := unit_float _).
  assert (Hx : unit_interval x) by apply unit_float_interval, _int32_uint32.
  destruct (Z.eq_dec n 0) as [->|Hn0].
  - exists 0. split; [|lia].
    change (py_float 0) with (Some (S754_zero false)). cbn [lift]. unfold ret.
    by apply fmul_unit_zero.
  - destruct (py_float_neg n ltac:(lia)) as (p & e & -> & He & Hp & Hfull).
    cbn [lift]. unfold ret.
    destruct (fmul_unit_int x true p e (- n)
                (mkStableRandom (_seed s) (snd (regen s) + 1) (fst (regen s))))
      as (v & Hv & Hb); try done; try lia.
    exists v. split; [done|]. unfold within in Hb. lia.
Qed.

Lemma below_no_validation_witness :
  (- 2 ^ 53 < -5 <= 0) /\ wf fresh0 /\ 0 <= index fresh0
  /\ exists v,
       _randbelow (-5) fresh0 = Ok v (state_of (random fresh0))
       /\ -5 <= v <= 0.
Proof.
  split; [lia|]. split; [vm_compute; reflexivity|].
  split; [vm_compute; discriminate|].
  apply (below_no_validation (-5) fresh0);
    [lia|vm_compute; reflexivity|vm_compute; discriminate].
Defined.

(** C5, as the spec words it, fails: on [StableRandom(0)] the calls
    [_randbelow(0)] and [_randbelow(-5)] return 0 and -2. *)
Lemma below_nonpositive_returns :
  value_of (_randbelow 0 fresh0) = Some 0
  /\ value_of (_randbelow (-5) fresh0) = Some (-2).
Proof.
  split; by vm_compute.
Qed.

(** C6 at its failing input: the 224th draw of [StableRandom(31792009)]
    is exactly 1.0, so [_randbelow(10)] called in its place returns 10,
    outside the range [0, 10) its docstring promises. *)
Theorem below_reaches_bound :
  exists v,
    value_of ((draws 223 ;;; _randbelow 10) (state_of (new (Some 31792009) 0))) = Some v
    /\ v = 10 /\ ~ (0 <= v < 10).
Proof.
  exists 10. split; [by vm_compute|]. split; [done|lia].
Qed.

(** C7. On a freshly constructed generator the cursor after [k] draws
    and the array after [k] draws are those of exactly one regeneration
    per 624 draws: a draw regenerates precisely when the number of draws
    made before it is a multiple of 624, the first [k] draws regenerate
    [(k + 623) / 624] times, and the 625th draw returns the tempered
    first element of the array twisted twice. *)
Theorem regeneration_boundary (sd : option Z) (now : Z) :
  let s0 := state_of (new sd now) in
  (forall k, exists outs,
       draws k s0
       = Ok outs (mkStableRandom (_seed s0) (cursor_after 624 k)
                    (Nat.iter (twists_after 624 k) twist_arr (mt s0)))
       /\ length outs = k)
  /\ (forall k, 624 <= cursor_after 624 k <-> Z.of_nat k mod 624 = 0)
  /\ (forall k, Z.of_nat (twists_after 624 k) = (Z.of_nat k + 623) / 624)
  /\ value_of ((draws 624 ;;; random) s0)
     = Some (unit_float (_int32 (temper (at_ (twist_arr (twist_arr (mt s0))) 0)))).
Proof.
  rewrite new_ok. cbv zeta. cbn [state_of].
  set (x := match sd with Some x => x | None => now end).
  set (s0 := mkStableRandom x 624 (init_arr x)).
  assert (Hwf : wf s0) by (unfold wf, s0; cbn [mt]; apply length_init_arr).
  assert (Hi : 0 <= index s0 <= 624) by (unfold s0; cbn [index]; lia).
  split; [|split; [|split]].
  - intros k. apply (draws_state k s0 Hwf Hi).
  - apply cursor_after_full.
  - apply twists_after_count.
  - apply (draw_625 s0 Hwf). reflexivity.
Qed.

(** C8. Exporting the state and restoring it at once changes nothing:
    the draws that follow, their values and the state they leave (or the
    exception they raise) are those of the generator left alone. *)
Theorem state_round_trip (s : StableRandom) (k : nat) :
  (st <- getstate ;; setstate st ;;; draws k) s = draws k s.
Proof.
  unfold bind, getstate, setstate, set_mt, set_index. cbn [fst snd _seed index mt].
  by destruct s.
Qed.

(** C9, as the code has it.  After construction and after any sequence
    of draws, [_randbelow], [seed], [getstate] and [jumpahead] calls, the
    array has 624 elements, those at positions 1 to 623 lie in
    [0, 0xFFFFFFFF], and position 0 either lies in that range or still
    holds the seed exactly as given (or as read from the clock, without
    truncation).  When no [jumpahead] is among the calls, position 0
    holds the seed until the first draw and lies in [0, 0xFFFFFFFF] from
    the first draw on. *)
Theorem state_masked (sd : option Z) (now : Z) (ops : list op) :
  let x := match sd with Some x => x | None => now end in
  let s := run_ops ops (state_of (new sd now)) in
  length (mt s) = 624%nat
  /\ (forall i, 1 <= i < 624 -> uint32 (at_ (mt s) i))
  /\ (uint32 (at_ (mt s) 0) \/ at_ (mt s) 0 = x)
  /\ (existsb is_jump ops = false ->
      if existsb is_draw ops then uint32 (at_ (mt s) 0) else at_ (mt s) 0 = x).
Proof.
  cbv zeta.
  pose proof (masked_new sd now) as Hnew.
  destruct (masked_weak_run_ops _ ops _ (masked_weaken _ _ _ Hnew)) as (Hwf & Hrest & H0).
  split; [exact Hwf|]. split; [exact Hrest|]. split; [exact H0|].
  intros Hj.
  destruct (masked_run_ops _ ops false _ Hj Hnew) as (_ & _ & _ & H1).
  cbn [orb] in H1.
  destruct (existsb is_draw ops); [exact H1|exact (proj2 H1)].
Qed.

Lemma state_masked_witness :
  existsb is_jump [OpRandom; OpBelow 10] = false
  /\ (if existsb is_draw [OpRandom; OpBelow 10]
      then uint32 (at_ (mt (run_ops [OpRandom; OpBelow 10]
                              (state_of (new None 458000000000)))) 0)
      else at_ (mt (run_ops [OpRandom; OpBelow 10]
                      (state_of (new None 458000000000)))) 0
           = 458000000000).
Proof.
  split; [reflexivity|].
  apply (proj2 (proj2 (proj2
           (state_masked None 458000000000 [OpRandom; OpBelow 10])))).
  reflexivity.
Defined.

(** C9, as the spec words it, fails: constructed without a seed at a
    clock reading of 458000000000 (a value of [int(time.time() * 256)]
    in 2026), the generator stores that number, which exceeds
    0xFFFFFFFF, at position 0. *)
Lemma unseeded_state_unmasked :
  at_ (mt (state_of (new None 458000000000))) 0 = 458000000000
  /\ ~ uint32 (at_ (mt (state_of (new None 458000000000))) 0).
Proof.
  assert (H : at_ (mt (state_of (new None 458000000000))) 0 = 458000000000)
    by (by vm_compute).
  split; [exact H|]. rewrite H. unfold uint32. lia.
Qed.

(** C10. [seed] on a constructed generator replaces the stored seed and
    nothing else; array and cursor stay, and the draws that follow return
    the same values and leave the same array and cursor as without the
    call. *)
Theorem seed_is_inert (sd : option Z) (now : Z) (s : StableRandom) :
  let x := match sd with Some x => x | None => now end in
  seed sd now s = Ok tt (mkStableRandom x (index s) (mt s))
  /\ forall k,
       draws k (state_of (seed sd now s)) = omap (reseed x) (draws k s)
       /\ value_of (draws k (state_of (seed sd now s))) = value_of (draws k s)
       /\ mt (state_of (draws k (state_of (seed sd now s)))) = mt (state_of (draws k s))
       /\ index (state_of (draws k (state_of (seed sd now s))))
          = index (state_of (draws k s)).
Proof.
  cbv zeta. split; [reflexivity|]. intros k.
  change (state_of (seed sd now s))
    with (reseed (match sd with Some x => x | None => now end) s).
  rewrite seedless_draws.
  by destruct (draws k s).
Qed.

(** * Further properties of the code *)

(** ** The twist and the low bits of element 0 *)

Lemma at_insert_0 (l : list Z) a : (0 < length l)%nat -> at_ (<[0%nat := a]> l) 0 = a.
Proof.
  intros Hl. unfold at_. change (Z.to_nat 0) with 0%nat.
  by rewrite list_lookup_insert_eq.
Qed.

Lemma at_insert_0_ne (l : list Z) a i : 0 < i -> at_ (<[0%nat := a]> l) i = at_ l i.
Proof.
  intros Hi. unfold at_. by rewrite list_lookup_insert_ne by lia.
Qed.

Lemma twist_arr_low_bits l a b :
  length l = 624%nat ->
  Z.land a 0x80000000 = Z.land b 0x80000000 ->
  twist_arr (<[0%nat := a]> l) = twist_arr (<[0%nat := b]> l).
Proof.
  intros Hlen Hab.
  assert (Hstep : step twist_g 0 (<[0%nat := a]> l) = step twist_g 0 (<[0%nat := b]> l)).
  { unfold step. change (Z.to_nat 0) with 0%nat.
    rewrite !list_insert_insert_eq.
    assert (Hv : twist_g 0 (<[0%nat := a]> l) = twist_g 0 (<[0%nat := b]> l)).
    { unfold twist_g.
      change ((0 + 1) mod 624) with 1. change ((0 + 397) mod 624) with 397.
      rewrite !at_insert_0 by lia. rewrite !at_insert_0_ne by lia.
      unfold twist_mix. by rewrite Hab. }
    by rewrite Hv. }
  unfold twist_arr.
  rewrite !(sweep_app twist_g 0 1 623) by lia.
  rewrite !sweep_one. by rewrite Hstep.
Qed.

Lemma low_bits_step (sd idx a b : Z) (l : list Z) (k : nat) :
  length l = 624%nat -> 624 <= idx ->
  Z.land a 0x80000000 = Z.land b 0x80000000 ->
  draws (S k) (mkStableRandom sd idx (<[0%nat := a]> l))
  = draws (S k) (mkStableRandom sd idx (<[0%nat := b]> l)).
Proof.
  intros Hlen Hidx Hab. cbn [draws]. unfold bind at 1 3.
  rewrite !random_regen by (unfold wf; cbn [mt]; by rewrite length_insert).
  unfold regen. cbn [index mt].
  destruct (Z.leb_spec 624 idx); [|lia]. cbn [fst snd _seed].
  by rewrite (twist_arr_low_bits l a b Hlen Hab).
Qed.

(** X1. The regeneration reads element 0 of the old array through its
    bit 31 only: two generators at the end of their array that differ in
    the other bits of element 0 return the same values and reach the
    same states from the first draw on. *)
Theorem low_bits_of_first_element_unused
    (sd idx a b : Z) (l : list Z) (k : nat) :
  length l = 624%nat -> 624 <= idx ->
  Z.land a 0x80000000 = Z.land b 0x80000000 ->
  draws (S k) (mkStableRandom sd idx (<[0%nat := a]> l))
  = draws (S k) (mkStableRandom sd idx (<[0%nat := b]> l)).
Proof.
  intros Hlen Hidx Hab. by apply low_bits_step.
Qed.

Lemma low_bits_of_first_element_unused_witness :
  length (replicate 624 7) = 624%nat /\ 624 <= 624
  /\ Z.land 5 0x80000000 = Z.land 9 0x80000000
  /\ draws 3 (mkStableRandom 0 624 (<[0%nat := 5]> (replicate 624 7)))
     = draws 3 (mkStableRandom 0 624 (<[0%nat := 9]> (replicate 624 7))).
Proof.
  split; [apply length_replicate|]. split; [lia|]. split; [reflexivity|].
  apply (low_bits_of_first_element_unused 0 624 5 9 (replicate 624 7) 2);
    [apply length_replicate|lia|reflexivity].
Defined.

(** ** [jumpahead] against draws *)

Lemma random_Ok s :
  wf s -> -624 <= index s ->
  exists x,
    random s = Ok x (mkStableRandom (_seed s) (snd (regen s) + 1) (fst (regen s))).
Proof.
  intros Hwf Hi. rewrite random_regen by done. unfold extract. cbn [_seed index mt].
  destruct (getitem_is_Some (fst (regen s)) (snd (regen s))) as [y ->].
  { rewrite regen_length by done. pose proof (regen_cursor s Hi). lia. }
  by eexists.
Qed.

Lemma jumpahead_unfold n s :
  jumpahead n s
  = match random (mkStableRandom (_seed s) (index s + n) (mt s)) with
    | Ok _ s' => Ok tt s'
    | Raise e s' => Raise e s'
    end.
Proof. reflexivity. Qed.

(** Draws that stay inside the current array only move the cursor. *)
Lemma draws_within k s :
  wf s -> 0 <= index s -> index s + Z.of_nat k <= 624 ->
  exists outs,
    draws k s = Ok outs (mkStableRandom (_seed s) (index s + Z.of_nat k) (mt s)).
Proof.
  intros Hwf Hi Hk.
  destruct (draws_state k s Hwf ltac:(lia)) as (outs & Hd & _).
  exists outs. rewrite Hd. destruct k as [|k].
  - unfold cursor_after, twists_after. cbv [Nat.iter nat_rect].
    by rewrite Z.add_0_r.
  - unfold cursor_after, twists_after.
    rewrite Z.mod_small, Z.div_small by lia.
    change (Z.to_nat 0) with 0%nat. cbv [Nat.iter nat_rect].
    f_equal. f_equal. lia.
Qed.

(** X2. A forward jump over [n] positions is the same as discarding
    [min n (624 - cursor) + 1] draws: inside the array it skips [n]
    values and consumes one more, and any jump that reaches the end of
    the array, however far, regenerates once and leaves the cursor at
    1. *)
Theorem jumpahead_forward (s : StableRandom) (n : Z) :
  wf s -> 0 <= index s <= 624 -> 0 <= n ->
  jumpahead n s
  = Ok tt (state_of (draws (S (Z.to_nat (Z.min n (624 - index s)))) s)).
Proof.
  intros Hwf Hi Hn.
  set (k := Z.to_nat (Z.min n (624 - index s))).
  destruct (draws_state (S k) s Hwf Hi) as (outs & Hd & _).
  rewrite Hd. cbn [state_of].
  rewrite jumpahead_unfold.
  set (sj := mkStableRandom (_seed s) (index s + n) (mt s)).
  assert (Hwfj : wf sj) by exact Hwf.
  rewrite (random_ok sj Hwfj) by (unfold sj; cbn [index]; lia).
  unfold regen, sj. cbn [_seed index mt].
  unfold cursor_after, twists_after.
  assert (Hk : Z.of_nat (S k) = Z.min n (624 - index s) + 1) by (unfold k; lia).
  destruct (Z.leb_spec 624 (index s + n)) as [Hge|Hlt]; cbn [fst snd].
  - replace (index s + Z.of_nat (S k) - 1) with 624 by lia.
    change (624 mod 624 + 1) with (0 + 1).
    change (Z.to_nat (624 / 624)) with 1%nat.
    cbv [Nat.iter nat_rect]. reflexivity.
  - replace (index s + Z.of_nat (S k) - 1) with (index s + n) by lia.
    rewrite Z.mod_small, Z.div_small by lia.
    change (Z.to_nat 0) with 0%nat. cbv [Nat.iter nat_rect]. reflexivity.
Qed.

Lemma jumpahead_forward_witness :
  wf fresh0 /\ 0 <= index fresh0 <= 624 /\ 0 <= 1000000
  /\ jumpahead 1000000 fresh0
     = Ok tt (state_of (draws (S (Z.to_nat (Z.min 1000000 (624 - index fresh0))))
                              fresh0)).
Proof.
  assert (Hwf : wf fresh0) by (vm_compute; reflexivity).
  split; [exact Hwf|]. split; [vm_compute; split; discriminate|].
  split; [lia|].
  apply (jumpahead_forward fresh0 1000000 Hwf); [vm_compute; split; discriminate|lia].
Defined.

(** X3. A jump by [- (k + 1)] takes back [k] draws made inside the
    current array: the generator is again in the state it had before
    them, so the same [k] values come next. *)
Theorem jumpahead_rewinds (s : StableRandom) (k : nat) :
  wf s -> 0 <= index s -> index s + Z.of_nat k <= 624 ->
  jumpahead (- Z.of_nat k - 1) (state_of (draws k s)) = Ok tt s.
Proof.
  intros Hwf Hi Hk.
  destruct (draws_within k s Hwf Hi Hk) as (outs & ->). cbn [state_of].
  rewrite jumpahead_unfold. cbn [_seed index mt].
  replace (index s + Z.of_nat k + (- Z.of_nat k - 1)) with (index s - 1) by lia.
  set (sj := mkStableRandom (_seed s) (index s - 1) (mt s)).
  assert (Hwfj : wf sj) by exact Hwf.
  destruct (random_Ok sj Hwfj ltac:(unfold sj; cbn [index]; lia)) as (x & ->).
  unfold regen, sj. cbn [_seed index mt].
  destruct (Z.leb_spec 624 (index s - 1)); [lia|]. cbn [fst snd].
  replace (index s - 1 + 1) with (index s) by lia.
  by destruct s.
Qed.

Lemma jumpahead_rewinds_witness :
  wf (state_of (random fresh0)) /\ 0 <= index (state_of (random fresh0))
  /\ index (state_of (random fresh0)) + Z.of_nat 3 <= 624
  /\ jumpahead (- Z.of_nat 3 - 1) (state_of (draws 3 (state_of (random fresh0))))
     = Ok tt (state_of (random fresh0)).
Proof.
  assert (Hwf : wf (state_of (random fresh0))) by (vm_compute; reflexivity).
  split; [exact Hwf|]. split; [vm_compute; discriminate|].
  split; [vm_compute; discriminate|].
  apply (jumpahead_rewinds (state_of (random fresh0)) 3 Hwf); vm_compute; discriminate.
Defined.

(** ** Snapshots *)


(** ** Use through the constructor and the drawing methods *)

Lemma cursor_inv_random d s : cursor_inv d s -> cursor_inv true (state_of (random s)).
Proof.
  intros [Hwf Hi].
  assert (H0 : 0 <= index s) by (destruct d; lia).
  rewrite (random_ok s Hwf H0). cbn [state_of].
  unfold cursor_inv, wf, regen. cbn [mt index].
  destruct (Z.leb_spec 624 (index s)); cbn [fst snd].
  - split; [by rewrite length_twist_arr|lia].
  - split; [done|]. destruct d; lia.
Qed.

Lemma cursor_inv_run_op d o s :
  is_jump o = false ->
  cursor_inv d s -> cursor_inv (d || is_draw o) (run_op o s).
Proof.
  intros Hj H. destruct o as [|n|sd now| |n]; cbn [run_op is_draw]; [..|done].
  - rewrite orb_true_r. by apply cursor_inv_random with d.
  - rewrite orb_true_r, state_of_randbelow. by apply cursor_inv_random with d.
  - by rewrite orb_false_r.
  - by rewrite orb_false_r.
Qed.

Lemma cursor_inv_run_ops ops : forall d s,
  existsb is_jump ops = false ->
  cursor_inv d s -> cursor_inv (d || existsb is_draw ops) (run_ops ops s).
Proof.
  induction ops as [|o ops IH]; intros d s Hj H; cbn [existsb] in *.
  - by rewrite orb_false_r.
  - apply orb_false_elim in Hj as [Ho Hops].
    rewrite orb_assoc. apply (IH _ _ Hops (cursor_inv_run_op d o s Ho H)).
Qed.

Lemma cursor_inv_new sd now : cursor_inv false (state_of (new sd now)).
Proof.
  rewrite new_ok. cbv zeta. cbn [state_of].
  unfold cursor_inv, wf. cbn [mt index].
  split; [apply length_init_arr|lia].
Qed.

(** X5. A generator built by the constructor, with any seed, and used
    through [random], [_randbelow], [seed] and [getstate] only keeps 624
    elements and a cursor in [624] before the first draw and in 1..624
    after it, and its next [random] returns a value: no such call ever
    raises [IndexError]. *)
Theorem constructed_generator_is_safe (sd : option Z) (now : Z) (ops : list op) :
  existsb is_jump ops = false ->
  let s := run_ops ops (state_of (new sd now)) in
  length (mt s) = 624%nat
  /\ (if existsb is_draw ops then 1 <= index s <= 624 else index s = 624)
  /\ exists x s', random s = Ok x s'.
Proof.
  intros Hj. cbv zeta.
  destruct (cursor_inv_run_ops ops false _ Hj (cursor_inv_new sd now)) as [Hwf Hi].
  cbn [orb] in Hi.
  split; [exact Hwf|]. split.
  - destruct (existsb is_draw ops); lia.
  - destruct (random_Ok _ Hwf) as (x & Hx).
    + destruct (existsb is_draw ops); lia.
    + eauto.
Qed.

Lemma constructed_generator_is_safe_witness :
  existsb is_jump [OpSeed (Some 3) 0; OpRandom; OpBelow 10; OpGetstate] = false
  /\ exists x s',
       random (run_ops [OpSeed (Some 3) 0; OpRandom; OpBelow 10; OpGetstate]
                       (state_of (new None 458000000000)))
       = Ok x s'.
Proof.
  split; [reflexivity|].
  apply (constructed_generator_is_safe None 458000000000
           [OpSeed (Some 3) 0; OpRandom; OpBelow 10; OpGetstate]).
  reflexivity.
Defined.

(** ** The range of [_randbelow] for a positive bound *)

(** The quotient of a float by one of the same width that is larger by
    the factor 0xffffffff / 0xfffffffe at least stays below one. *)
Lemma fdiv_below_one px ex py ey :
  2 ^ 52 <= Z.pos px < 2 ^ 53 -> 2 ^ 52 <= Z.pos py < 2 ^ 53 ->
  -500 <= ex <= ey -> ey <= 500 ->
  Z.pos px * 0xffffffff <= Z.pos py * 2 ^ (ey - ex) * 0xfffffffe ->
  below_one (SFdiv prec emax (S754_finite false px ex) (S754_finite false py ey)).
Proof.
  intros Hx Hy He1 He2 Hle.
  unfold SFdiv, SFdiv_core_binary.
  rewrite (Zdigits2_eq (Z.pos px) 53), (Zdigits2_eq (Z.pos py) 53) by lia.
  rewrite fexp_eq.
  replace (Z.min (Z.max (53 + ex - (53 + ey) - 53) (-1074)) (ex - ey))
    with (ex - ey - 53) by lia.
  replace (ex - ey - (ex - ey - 53)) with 53 by lia.
  rewrite Z.shiftl_mul_pow2 by lia.
  pose proof (Z.div_eucl_eq (Z.pos px * 2 ^ 53) (Z.pos py) ltac:(lia)) as Hdiv.
  pose proof (Z.mod_pos_bound (Z.pos px * 2 ^ 53) (Z.pos py) ltac:(lia)) as Hmod.
  unfold Z.modulo in Hmod.
  destruct (Z.div_eucl (Z.pos px * 2 ^ 53) (Z.pos py)) as [q r].
  pose proof (pow2_pos (ey - ex) ltac:(lia)) as Hp.
  set (T := 2 ^ (ey - ex)) in *.
  assert (Hq0 : 0 <= q) by nia.
  assert (Hstrict : Z.pos px * 2 ^ 33 < Z.pos py * T * (2 ^ 33 - 1)).
  { assert (0 < Z.pos py * T) by nia.
    change (2 ^ 33) with 8589934592. lia. }
  assert (Hq : q < (2 ^ 33 - 1) * 2 ^ (-33 - (ex - ey - 53))).
  { replace (-33 - (ex - ey - 53)) with (20 + (ey - ex)) by lia.
    rewrite Z.pow_add_r by lia. fold T.
    change (2 ^ 53) with (2 ^ 33 * 2 ^ 20) in Hdiv.
    assert (0 < 2 ^ 20) by lia.
    nia. }
  destruct (round_bound (xorb false false) q (ex - ey - 53)
              (new_location (Z.pos py) r) (2 ^ 33 - 1) (-33))
    as [Hz|(p & e & Hr & He & Hp1 & Hp2)]; try lia.
  - by left.
  - right. exists p, e. rewrite Hr. by cbn [xorb].
Qed.

Lemma unit_float_below_one n :
  0 <= n < 0xffffffff -> below_one (unit_float n).
Proof.
  intros Hn. unfold unit_float. rewrite float_max32.
  destruct (Z.eq_dec n 0) as [->|Hn0]; [by left|].
  destruct (binary_normalize_exact n) as (p & e & -> & He & Hp & Hfull); [lia|].
  pose proof (pow2_pos (- e) ltac:(lia)) as Hpe.
  assert (He21 : e <= -21).
  { destruct (Z.le_gt_cases e (-21)) as [|Hgt]; [done|].
    assert (2 ^ (- e) <= 2 ^ 20) by (apply Z.pow_le_mono_r; lia).
    assert (n * 2 ^ (- e) < 2 ^ 32 * 2 ^ 20) by nia.
    change (2 ^ 32 * 2 ^ 20) with (2 ^ 52) in *. lia. }
  apply fdiv_below_one; try lia.
  rewrite Hp, (pow2_split 21 (- e)) by lia.
  replace (-21 - e) with (- e - 21) by lia.
  pose proof (pow2_pos (- e - 21) ltac:(lia)).
  change (2 ^ 21) with 2097152. nia.
Qed.

Lemma unit_float_max : unit_float 0xffffffff = S754_finite false 4503599627370496 (-52).
Proof. by vm_compute. Qed.

Lemma py_int_bound_strict sg p e a s :
  -1074 <= e <= 0 -> 0 < a -> Z.pos p < a * 2 ^ (- e) ->
  exists v, py_int (S754_finite sg p e) s = Ok v s
            /\ 0 <= (if sg then - v else v) < a.
Proof.
  intros He Ha Hp. unfold py_int, ret.
  pose proof (pow2_pos (- e) ltac:(lia)) as Hpe.
  destruct (Z.leb_spec 0 e).
  - replace e with 0 in * by lia. simpl in Hp.
    eexists. split; [reflexivity|]. destruct sg; simpl; lia.
  - eexists. split; [reflexivity|].
    assert (Z.pos p / 2 ^ (- e) < a)
      by (apply Z.div_lt_upper_bound; lia).
    assert (0 <= Z.pos p / 2 ^ (- e)) by (apply Z.div_pos; lia).
    destruct sg; lia.
Qed.

Lemma fmul_below_one x sg pf ef a s :
  below_one x ->
  2 ^ 52 <= Z.pos pf < 2 ^ 53 -> -52 <= ef <= 0 -> 0 < a ->
  Z.pos pf = a * 2 ^ (- ef) ->
  exists v, py_int (fmul x (S754_finite sg pf ef)) s = Ok v s
            /\ 0 <= (if sg then - v else v) < a.
Proof.
  intros [->|(px & ex & -> & Hex & Hpx & Hpx53)] Hpf Hef Ha Hval.
  { exists 0. split; [reflexivity|]. destruct sg; lia. }
  unfold fmul, SFmul. cbn [xorb]. rewrite Pos2Z.inj_mul.
  pose proof (pow2_pos (-33 - ex) ltac:(lia)) as HU.
  set (U := 2 ^ (-33 - ex)) in *.
  assert (Hpow : 2 ^ (- ex) = 2 ^ 33 * U).
  { unfold U. rewrite <- Z.pow_add_r by lia. f_equal. lia. }
  destruct (round_bound sg (Z.pos px * Z.pos pf) (ex + ef) loc_Exact (Z.pos pf - 1) ef)
    as [->|(p & e2 & -> & He2 & Hp & _)]; try lia.
  - replace (ef - (ex + ef)) with (- ex) by lia. rewrite Hpow.
    change (2 ^ 33) with 8589934592 in *. change (2 ^ 52) with 4503599627370496 in Hpf.
    nia.
  - exists 0. split; [reflexivity|]. destruct sg; lia.
  - apply py_int_bound_strict; [lia|lia|].
    pose proof (pow2_pos (ef - e2) ltac:(lia)).
    replace (- e2) with (- ef + (ef - e2)) by lia.
    rewrite Z.pow_add_r by lia. nia.
Qed.

Lemma fmul_one pf ef a s :
  2 ^ 52 <= Z.pos pf < 2 ^ 53 -> -52 <= ef <= 0 ->
  Z.pos pf = a * 2 ^ (- ef) ->
  py_int (fmul (S754_finite false 4503599627370496 (-52)) (S754_finite false pf ef)) s
  = Ok a s.
Proof.
  intros Hpf Hef Hval. unfold fmul, SFmul. cbn [xorb].
  rewrite Pos2Z.inj_mul, Z.mul_comm.
  change (Z.pos 4503599627370496) with (2 ^ 52).
  replace (-52 + ef) with (ef - 52) by lia.
  rewrite round_exact_shifted; [|apply Zdigits2_eq; lia|lia|lia].
  unfold py_int, ret. pose proof (pow2_pos (- ef) ltac:(lia)).
  destruct (Z.leb_spec 0 ef).
  - replace ef with 0 in * by lia. simpl in Hval. f_equal. simpl. lia.
  - rewrite Hval, Z.div_mul by lia. reflexivity.
Qed.

(** X6. For a positive bound [n] of at most 53 bits [_randbelow(n)]
    consumes one draw and returns an integer between 0 and [n]; it
    returns [n] itself exactly when the 32-bit value of the draw is
    0xffffffff, and an integer below [n] for each of the other values. *)
Theorem below_range_exact (n : Z) (s : StableRandom) :
  0 < n < 2 ^ 53 -> wf s -> 0 <= index s ->
  exists v,
    _randbelow n s = Ok v (state_of (random s))
    /\ 0 <= v <= n
    /\ (v = n <-> raw_draw s = 0xffffffff).
Proof.
  intros Hn Hwf Hi. unfold _randbelow, bind.
  rewrite (random_ok s Hwf Hi). cbn [state_of]. fold (raw_draw s).
  pose proof (_int32_uint32 (temper (at_ (fst (regen s)) (snd (regen s))))) as Hraw.
  fold (raw_draw s) in Hraw.
  destruct (py_float_pos n Hn) as (p & e & -> & He & Hp & Hfull).
  cbn [lift]. unfold ret.
  destruct (Z.eq_dec (raw_draw s) 0xffffffff) as [Heq|Hne].
  - rewrite Heq, unit_float_max.
    exists n. split; [by apply fmul_one|]. split; [lia|done].
  - destruct (fmul_below_one (unit_float (raw_draw s)) false p e n
                (mkStableRandom (_seed s) (snd (regen s) + 1) (fst (regen s))))
      as (v & Hv & Hb); try done; try lia.
    { apply unit_float_below_one. unfold uint32 in Hraw. lia. }
    exists v. split; [done|]. split; [lia|]. split; [lia|done].
Qed.

Lemma below_range_exact_witness :
  0 < 10 < 2 ^ 53 /\ wf fresh0 /\ 0 <= index fresh0
  /\ exists v,
       _randbelow 10 fresh0 = Ok v (state_of (random fresh0))
       /\ 0 <= v <= 10
       /\ (v = 10 <-> raw_draw fresh0 = 0xffffffff).
Proof.
  assert (Hwf : wf fresh0) by (vm_compute; reflexivity).
  split; [lia|]. split; [exact Hwf|]. split; [vm_compute; discriminate|].
  apply (below_range_exact 10 fresh0); [lia|exact Hwf|vm_compute; discriminate].
Defined.

(** ** The tempering is a bijection *)

Lemma land_lxor_l a b c : Z.land (Z.lxor a b) c = Z.lxor (Z.land a c) (Z.land b c).
Proof.
  apply Z.bits_inj'. intros n Hn.
  rewrite !Z.land_spec, !Z.lxor_spec, !Z.land_spec.
  by destruct (Z.testbit a n), (Z.testbit b n), (Z.testbit c n).
Qed.

Lemma linear_shiftr n : linear (fun y => Z.shiftr y n).
Proof. intros a b. apply Z.shiftr_lxor. Qed.

Lemma linear_shiftl n : linear (fun y => Z.shiftl y n).
Proof. intros a b. apply Z.shiftl_lxor. Qed.

Lemma linear_land m : linear (fun y => Z.land y m).
Proof. intros a b. apply land_lxor_l. Qed.

Lemma linear_int32 : linear _int32.
Proof. intros a b. unfold _int32. rewrite !(Z.land_comm 0xFFFFFFFF). apply land_lxor_l. Qed.

Lemma linear_compose f g : linear f -> linear g -> linear (fun y => g (f y)).
Proof. intros Hf Hg a b. by rewrite Hf, Hg. Qed.

Lemma lxor_swap a b c d :
  Z.lxor (Z.lxor a b) (Z.lxor c d) = Z.lxor (Z.lxor a c) (Z.lxor b d).
Proof.
  rewrite !Z.lxor_assoc. f_equal. rewrite <- !Z.lxor_assoc. f_equal. apply Z.lxor_comm.
Qed.

Lemma linear_lxor f g : linear f -> linear g -> linear (fun y => Z.lxor (f y) (g y)).
Proof. intros Hf Hg a b. rewrite Hf, Hg. apply lxor_swap. Qed.

Lemma linear_id : linear (fun y => y).
Proof. done. Qed.

Lemma linear_unshift L n : linear L -> linear (unshift L n).
Proof.
  intros HL. induction n as [|n IH]; [done|].
  intros a b. cbn [unshift]. rewrite IH, HL. apply lxor_swap.
Qed.

Lemma linear_step L : linear L -> linear (fun y => Z.lxor y (L y)).
Proof. intros HL. apply (linear_lxor (fun y => y)); [apply linear_id|exact HL]. Qed.

Lemma linear_shiftl_land n m : linear (fun y => Z.land (Z.shiftl y n) m).
Proof.
  apply (linear_compose (fun y => Z.shiftl y n) (fun y => Z.land y m));
    [apply linear_shiftl|apply linear_land].
Qed.

Lemma linear_temper : linear temper.
Proof.
  change temper with
    (fun y => (fun y => Z.lxor y (Z.shiftr y 18))
              ((fun y => Z.lxor y (Z.land (Z.shiftl y 15) 4022730752))
               ((fun y => Z.lxor y (Z.land (Z.shiftl y 7) 2636928640))
                ((fun y => Z.lxor y (Z.shiftr y 11)) y)))).
  pose proof (linear_step _ (linear_shiftr 11)) as H1.
  pose proof (linear_step _ (linear_shiftl_land 7 2636928640)) as H2.
  pose proof (linear_step _ (linear_shiftl_land 15 4022730752)) as H3.
  pose proof (linear_step _ (linear_shiftr 18)) as H4.
  exact (linear_compose _ _ (linear_compose _ _ (linear_compose _ _ H1 H2) H3) H4).
Qed.

Lemma linear_int32_shiftl_land n m :
  linear (fun y => Z.land (_int32 (Z.shiftl y n)) m).
Proof.
  exact (linear_compose _ _ (linear_compose _ _ (linear_shiftl n) linear_int32)
           (linear_land m)).
Qed.

Lemma linear_untemper : linear untemper.
Proof.
  pose proof (linear_unshift _ 1 (linear_shiftr 18)) as H1.
  pose proof (linear_unshift _ 1 (linear_int32_shiftl_land 15 4022730752)) as H2.
  pose proof (linear_unshift _ 4 (linear_int32_shiftl_land 7 2636928640)) as H3.
  pose proof (linear_unshift _ 2 (linear_shiftr 11)) as H4.
  exact (linear_compose _ _
           (linear_compose _ _
              (linear_compose _ _ (linear_compose _ _ linear_int32 H1) H2) H3) H4).
Qed.

Lemma linear_0 f : linear f -> f 0 = 0.
Proof.
  intros Hf. pose proof (Hf 0 0) as H. rewrite Z.lxor_0_l in H.
  rewrite H. apply Z.lxor_nilpotent.
Qed.

Lemma lxor_pow2 a n : 0 <= n -> 0 <= a < 2 ^ n -> Z.lxor a (2 ^ n) = a + 2 ^ n.
Proof.
  intros Hn Ha. symmetry. apply Z.add_nocarry_lxor.
  apply Z.bits_inj'. intros k Hk.
  rewrite Z.land_spec, Z.bits_0, Z.pow2_bits_eqb by lia.
  destruct (Z.eqb_spec n k) as [<-|Hne]; [|apply andb_false_r].
  rewrite andb_true_r.
  destruct (Z.eq_dec a 0) as [->|Ha0]; [apply Z.bits_0|].
  apply Z.bits_above_log2; [lia|]. apply Z.log2_lt_pow2; lia.
Qed.

(** A linear map that fixes the 32 powers of two fixes every 32-bit
    value. *)
Lemma linear_fixes f :
  linear f -> (forall k, 0 <= k < 32 -> f (2 ^ k) = 2 ^ k) ->
  forall y, 0 <= y <= 0xFFFFFFFF -> f y = y.
Proof.
  intros Hf Hb.
  assert (Hn : forall n : nat, (n <= 32)%nat ->
            forall y, 0 <= y < 2 ^ Z.of_nat n -> f y = y).
  { induction n as [|n IH]; intros Hle y Hy.
    - replace y with 0 by (simpl in Hy; lia). by apply linear_0.
    - rewrite Nat2Z.inj_succ, Z.pow_succ_r in Hy by lia.
      destruct (Z.lt_ge_cases y (2 ^ Z.of_nat n)) as [Hlt|Hge].
      + apply IH; lia.
      + replace y with (Z.lxor (y - 2 ^ Z.of_nat n) (2 ^ Z.of_nat n)).
        * rewrite Hf, IH, Hb by lia. reflexivity.
        * rewrite lxor_pow2 by lia. lia. }
  intros y Hy. apply (Hn 32%nat); [lia|]. change (2 ^ Z.of_nat 32) with 4294967296. lia.
Qed.

Lemma untemper_basis k :
  0 <= k < 32 -> untemper (_int32 (temper (2 ^ k))) = 2 ^ k.
Proof.
  intros Hk.
  assert (H : forallb (fun k => untemper (_int32 (temper (2 ^ k))) =? 2 ^ k)
                (seqZ 0 32) = true) by (by vm_compute).
  rewrite forallb_forall in H.
  apply Z.eqb_eq, H, list_elem_of_In, elem_of_seqZ. lia.
Qed.

Lemma temper_basis k :
  0 <= k < 32 -> _int32 (temper (untemper (2 ^ k))) = 2 ^ k.
Proof.
  intros Hk.
  assert (H : forallb (fun k => _int32 (temper (untemper (2 ^ k))) =? 2 ^ k)
                (seqZ 0 32) = true) by (by vm_compute).
  rewrite forallb_forall in H.
  apply Z.eqb_eq, H, list_elem_of_In, elem_of_seqZ. lia.
Qed.

(** X7. On 32-bit values the tempering of [random], masked to 32 bits,
    is a bijection with inverse [untemper]: the array element under the
    cursor can be computed back from the value a draw returns, and every
    32-bit value is the tempered form of exactly one element. *)
Theorem temper_invertible :
  (forall y, uint32 y -> untemper (_int32 (temper y)) = y)
  /\ (forall o, uint32 o -> _int32 (temper (untemper o)) = o)
  /\ (forall o, uint32 (untemper o)).
Proof.
  split; [|split].
  - apply (linear_fixes (fun y => untemper (_int32 (temper y)))).
    + exact (linear_compose _ _ (linear_compose _ _ linear_temper linear_int32)
               linear_untemper).
    + apply untemper_basis.
  - apply (linear_fixes (fun o => _int32 (temper (untemper o)))).
    + exact (linear_compose _ _ (linear_compose _ _ linear_untemper linear_temper)
               linear_int32).
    + apply temper_basis.
  - intros o. unfold untemper. cbv zeta. cbn [unshift].
    repeat first
      [ apply uint32_lxor
      | apply uint32_shiftr; [lia|]
      | apply uint32_land_r; unfold uint32; lia
      | apply _int32_uint32 ].
Qed.

Lemma temper_invertible_witness :
  uint32 2357136044
  /\ untemper (_int32 (temper 2357136044)) = 2357136044
  /\ _int32 (temper (untemper 2357136044)) = 2357136044.
Proof.
  assert (H : uint32 2357136044) by (unfold uint32; lia).
  split; [exact H|]. split.
  - apply (proj1 temper_invertible _ H).
  - apply (proj1 (proj2 temper_invertible) _ H).
Defined.

(** ** An array that is too short *)

Lemma for_app l1 l2 body s :
  for_ (l1 ++ l2) body s = (for_ l1 body ;;; for_ l2 body) s.
Proof.
  revert s. induction l1 as [|i l1 IH]; intros s; cbn [app for_].
  - reflexivity.
  - unfold bind at 1 2 3. destruct (body i s) as [a s1|e s1]; [|reflexivity].
    rewrite IH. reflexivity.
Qed.

Lemma mt_get_cases i s :
  mt_get i s = Raise IndexError s \/ exists v, mt_get i s = Ok v s.
Proof.
  unfold mt_get. destruct (getitem (mt s) i); [right; by eexists|by left].
Qed.

Lemma mt_get_out i s :
  Z.of_nat (length (mt s)) <= i -> mt_get i s = Raise IndexError s.
Proof.
  intros Hi. unfold mt_get, getitem, py_index.
  destruct (Z.leb_spec 0 i); [|lia].
  by destruct (Z.ltb_spec i (Z.of_nat (length (mt s)))); [lia|].
Qed.

(** A step whose far element lies in the array succeeds as on a full
    array. *)
Lemma twist_body_short i s :
  0 <= i -> i + 397 < Z.of_nat (length (mt s)) -> i + 397 < 624 ->
  twist_body i s = Ok tt (with_mt s (step twist_g i (mt s))).
Proof.
  intros Hi Hlen H624.
  unfold twist_body, bind.
  rewrite (Z.mod_small (i + 1)), (Z.mod_small (i + 397)) by lia.
  rewrite !mt_get_ok by lia.
  rewrite mt_set_ok by lia.
  unfold step, twist_g, twist_mix.
  rewrite (Z.mod_small (i + 1)), (Z.mod_small (i + 397)) by lia.
  set (y := _int32 _).
  destruct (negb (y mod 2 =? 0)); [|done].
  rewrite mt_get_ok by (cbn [mt with_mt]; rewrite length_insert; lia).
  rewrite mt_set_ok by (cbn [mt with_mt]; rewrite length_insert; lia).
  unfold with_mt, at_. cbn [mt index _seed].
  rewrite list_lookup_insert_eq by lia. cbn [default].
  by rewrite list_insert_insert_eq.
Qed.

(** The step whose far element is the first one missing raises, and has
    written nothing. *)
Lemma twist_body_fail i s :
  0 <= i -> Z.of_nat (length (mt s)) <= i + 397 -> i + 397 < 624 ->
  twist_body i s = Raise IndexError s.
Proof.
  intros Hi Hlen H624. unfold twist_body, bind.
  destruct (mt_get_cases i s) as [->|[a ->]]; [done|].
  destruct (mt_get_cases ((i + 1) mod 624) s) as [->|[b ->]]; [done|].
  rewrite (Z.mod_small (i + 397)) by lia.
  by rewrite mt_get_out.
Qed.

Lemma _twist_short s :
  (length (mt s) < 624)%nat ->
  exists l, _twist s = Raise IndexError (with_mt s l) /\ length l = length (mt s).
Proof.
  intros Hlen.
  set (L := Z.of_nat (length (mt s))).
  set (i0 := Z.max 0 (L - 397)).
  exists (sweep twist_g 0 i0 (mt s)). split; [|apply length_sweep].
  unfold _twist, range. unfold bind at 1.
  replace (624 - 0) with (i0 + (1 + (624 - i0 - 1))) by lia.
  rewrite seqZ_app by lia. rewrite for_app. unfold bind at 1.
  rewrite (for_sweep twist_body twist_g (length (mt s)) 0 i0); [| |reflexivity].
  - rewrite seqZ_app by lia. rewrite for_app. unfold bind at 1.
    change (seqZ (0 + i0) 1) with [0 + i0]. cbn [for_]. unfold bind at 1.
    rewrite twist_body_fail; [reflexivity|lia| |lia].
    cbn [mt with_mt]. rewrite length_sweep. fold L. lia.
  - intros i s' Hi Hs'. apply twist_body_short; [lia| |lia].
    rewrite Hs'. fold L. lia.
Qed.

(** X8. [setstate] accepts an array of fewer than 624 elements, and the
    generator then fails at its next regeneration: [random] called with
    the cursor at 624 or beyond raises [IndexError], without resetting
    the cursor or changing the length of the array, so that every later
    call raises as well. *)
Theorem short_array_fails (arr : list Z) (idx : Z) (s0 : StableRandom) :
  (length arr < 624)%nat -> 624 <= idx ->
  exists s,
    setstate (arr, idx) s0 = Ok tt s
    /\ forall k, exists s',
         draws (S k) s = Raise IndexError s'
         /\ index s' = idx /\ length (mt s') = length arr.
Proof.
  intros Hlen Hidx.
  exists (mkStableRandom (_seed s0) idx arr). split; [reflexivity|].
  intros k.
  destruct (_twist_short (mkStableRandom (_seed s0) idx arr) Hlen) as (l & Htw & Hl).
  exists (with_mt (mkStableRandom (_seed s0) idx arr) l).
  split; [|split; [reflexivity|exact Hl]].
  cbn [draws]. unfold bind at 1. rewrite random_unfold. cbn [index].
  destruct (Z.leb_spec 624 idx); [|lia].
  by rewrite Htw.
Qed.

Lemma short_array_fails_witness :
  (length [1; 2; 3] < 624)%nat /\ 624 <= 624
  /\ exists s,
       setstate ([1; 2; 3], 624) fresh0 = Ok tt s
       /\ forall k, exists s',
            draws (S k) s = Raise IndexError s'
            /\ index s' = 624 /\ length (mt s') = length [1; 2; 3].
Proof.
  split; [cbn [length]; lia|]. split; [lia|].
  apply (short_array_fails [1; 2; 3] 624 fresh0); [cbn [length]; lia|lia].
Defined.

(** ** [gauss_next] *)

(** The literal [1e-10] is the double nearest to 10^-10. *)
Lemma eps_nearest :
  ((2 * 7737125245533627 - 1) # (2 ^ 87) < 1 # (10 ^ 10))%Q
  /\ (1 # (10 ^ 10) < (2 * 7737125245533627 + 1) # (2 ^ 87))%Q.
Proof. split; reflexivity. Qed.

Lemma two_draws s :
  wf s -> 0 <= index s ->
  exists x2 s2,
    random (state_of (random s)) = Ok x2 s2
    /\ draws 2 s = Ok [unit_float (raw_draw s); x2] s2.
Proof.
  intros Hwf Hi. cbn [draws]. unfold bind.
  rewrite (random_ok s Hwf Hi). cbn [state_of]. fold (raw_draw s).
  set (s1 := mkStableRandom _ _ _).
  assert (Hwf1 : wf s1) by (unfold wf, s1; cbn [mt]; by apply regen_length).
  assert (Hi1 : 0 <= index s1).
  { unfold s1, regen. cbn [index].
    destruct (Z.leb_spec 624 (index s)); cbn [snd]; lia. }
  rewrite (random_ok s1 Hwf1 Hi1). by eexists _, _.
Qed.

Lemma fmul_neg_two m e :
  2 ^ 52 <= Z.pos m < 2 ^ 53 -> -1074 <= e <= 900 ->
  fmul neg_two (S754_finite false m e) = S754_finite true m (e + 1).
Proof.
  intros Hm He. unfold fmul, neg_two, SFmul. cbn [xorb].
  rewrite Pos2Z.inj_mul, Z.mul_comm.
  change (Z.pos 4503599627370496) with (2 ^ 52).
  replace (-51 + e) with (e + 1 - 52) by lia.
  apply round_exact_shifted; [apply Zdigits2_eq; lia|lia|lia].
Qed.

(** X9. [gauss_next] consumes exactly two draws, whatever [sqrt], [log]
    and [cos] return or raise: it leaves the generator in the state two
    calls of [random] leave it in. *)
Theorem gauss_next_consumes_two
    (sqrt log cos : spec_float -> exn + spec_float) (pi : spec_float)
    (s : StableRandom) :
  state_of (gauss_next sqrt log cos pi s) = state_of (draws 2 s).
Proof.
  unfold gauss_next. cbn [draws]. unfold bind.
  destruct (random s) as [x1 s1|e1 s1]; [|reflexivity].
  destruct (random s1) as [x2 s2|e2 s2]; [|reflexivity].
  destruct (log _) as [?|l]; [reflexivity|]. cbn [pure]. unfold ret.
  destruct (sqrt _) as [?|r]; [reflexivity|]. cbn [pure]. unfold ret.
  destruct (cos _) as [?|c]; reflexivity.
Qed.

(** X10. When the first of its two draws is exactly 1.0, that is when
    its 32-bit value is 0xffffffff, [gauss_next] raises [ValueError]:
    the logarithm of [1.0 + 1e-10] is positive, so the argument of the
    square root is negative.  This holds for every [log] that returns a
    positive normal float at [1.0 + 1e-10] and every [sqrt] that raises
    [ValueError] on a negative float. *)
Theorem gauss_next_domain_error
    (sqrt log cos : spec_float -> exn + spec_float) (pi : spec_float)
    (s : StableRandom) :
  (exists m e, log (fadd one eps) = inr (S754_finite false m e)
               /\ 2 ^ 52 <= Z.pos m < 2 ^ 53 /\ -1074 <= e <= 900) ->
  (forall m e, sqrt (S754_finite true m e) = inl ValueError) ->
  wf s -> 0 <= index s -> raw_draw s = 0xffffffff ->
  gauss_next sqrt log cos pi s = Raise ValueError (state_of (draws 2 s)).
Proof.
  intros (m & e & Hlog & Hm & He) Hsqrt Hwf Hi Hraw.
  destruct (two_draws s Hwf Hi) as (x2 & s2 & Hr2 & Hd).
  rewrite Hd. cbn [state_of].
  unfold gauss_next, bind.
  rewrite (random_ok s Hwf Hi) in *. cbn [state_of] in Hr2. rewrite Hr2.
  fold (raw_draw s). rewrite Hraw, unit_float_max. fold one.
  rewrite Hlog. cbn [pure]. unfold ret.
  rewrite (fmul_neg_two m e Hm He), Hsqrt. reflexivity.
Qed.

Lemma gauss_next_domain_error_witness :
  (exists m e, log_near_one (fadd one eps) = inr (S754_finite false m e)
               /\ 2 ^ 52 <= Z.pos m < 2 ^ 53 /\ -1074 <= e <= 900)
  /\ (forall m e, math_sqrt (S754_finite true m e) = inl ValueError)
  /\ wf ones_state /\ 0 <= index ones_state /\ raw_draw ones_state = 0xffffffff
  /\ gauss_next math_sqrt log_near_one cos_unused one ones_state
     = Raise ValueError (state_of (draws 2 ones_state)).
Proof.
  assert (H1 : exists m e,
             log_near_one (fadd one eps) = inr (S754_finite false m e)
             /\ 2 ^ 52 <= Z.pos m < 2 ^ 53 /\ -1074 <= e <= 900).
  { exists 7737125885706240%positive, (-86). split; [vm_compute; reflexivity|lia]. }
  assert (H2 : forall m e, math_sqrt (S754_finite true m e) = inl ValueError)
    by reflexivity.
  assert (H3 : wf ones_state) by (vm_compute; reflexivity).
  assert (H4 : 0 <= index ones_state) by (vm_compute; discriminate).
  assert (H5 : raw_draw ones_state = 0xffffffff) by (vm_compute; reflexivity).
  split; [exact H1|]. split; [exact H2|]. split; [exact H3|].
  split; [exact H4|]. split; [exact H5|].
  exact (gauss_next_domain_error math_sqrt log_near_one cos_unused one
           ones_state H1 H2 H3 H4 H5).
Defined.

(** ** A backward jump past the start of the array *)

Lemma getitem_below l i : i < - Z.of_nat (length l) -> getitem l i = None.
Proof.
  intros Hi. unfold getitem, py_index.
  destruct (Z.leb_spec 0 i); [lia|].
  by destruct (Z.leb_spec (- Z.of_nat (length l)) i); [lia|].
Qed.

Lemma random_below s :
  wf s -> index s < -624 -> random s = Raise IndexError s.
Proof.
  intros Hwf Hi. rewrite random_regen by done. unfold regen.
  destruct (Z.leb_spec 624 (index s)); [lia|]. cbn [fst snd].
  unfold extract. cbn [mt index].
  rewrite getitem_below by (rewrite Hwf; lia). by destruct s.
Qed.

(** X11. A jump that moves the cursor below -624 raises [IndexError] and
    leaves the cursor there: the array is untouched, and every later
    draw raises [IndexError] again. *)
Theorem jumpahead_below_start (s : StableRandom) (n : Z) :
  wf s -> index s + n < -624 ->
  jumpahead n s
  = Raise IndexError (mkStableRandom (_seed s) (index s + n) (mt s))
  /\ forall k,
       draws (S k) (mkStableRandom (_seed s) (index s + n) (mt s))
       = Raise IndexError (mkStableRandom (_seed s) (index s + n) (mt s)).
Proof.
  intros Hwf Hn.
  set (sj := mkStableRandom (_seed s) (index s + n) (mt s)).
  assert (Hr : random sj = Raise IndexError sj) by (by apply random_below).
  split.
  - rewrite jumpahead_unfold. fold sj. by rewrite Hr.
  - intros k. cbn [draws]. unfold bind at 1. by rewrite Hr.
Qed.

Lemma jumpahead_below_start_witness :
  wf fresh0 /\ index fresh0 + (-2000) < -624
  /\ jumpahead (-2000) fresh0
     = Raise IndexError (mkStableRandom (_seed fresh0) (index fresh0 + (-2000))
                                        (mt fresh0)).
Proof.
  assert (Hwf : wf fresh0) by (vm_compute; reflexivity).
  assert (Hn : index fresh0 + (-2000) < -624) by (vm_compute; reflexivity).
  split; [exact Hwf|]. split; [exact Hn|].
  exact (proj1 (jumpahead_below_start fresh0 (-2000) Hwf Hn)).
Defined.

(** ** The mask *)

(** X12. For every integer, negative or wider than 32 bits as well,
    [_int32] returns the residue modulo 2^32 between 0 and 0xffffffff;
    it returns its argument exactly when that already lies in this
    range, and masking twice is masking once. *)
Theorem int32_residue (x : Z) :
  _int32 x = x mod 2 ^ 32
  /\ uint32 (_int32 x)
  /\ (_int32 x = x <-> uint32 x)
  /\ _int32 (_int32 x) = _int32 x.
Proof.
  split; [apply _int32_mod|]. split; [apply _int32_uint32|]. split.
  - split; [intros <-; apply _int32_uint32|apply _int32_id].
  - apply _int32_id, _int32_uint32.
Qed.

(** ** What of the seed reaches the stream *)

Lemma foldl_step_commute g (F : list Z -> list Z) js :
  (forall i l, i ∈ js -> step g i (F l) = F (step g i l)) ->
  forall l, foldl (fun l i => step g i l) (F l) js
            = F (foldl (fun l i => step g i l) l js).
Proof.
  induction js as [|j js IH]; intros HF l; cbn [foldl]; [done|].
  rewrite HF by left. apply IH. intros i l' Hi. apply HF. by right.
Qed.

(** The steps of the seeding loop from the second on neither read nor
    write position 0. *)
Lemma init_step_insert_0 y i l :
  2 <= i -> step init_g i (<[0%nat := y]> l) = <[0%nat := y]> (step init_g i l).
Proof.
  intros Hi. unfold step, init_g.
  rewrite !at_insert_0_ne by lia.
  apply list_insert_insert_ne. lia.
Qed.

Lemma int32_affine c u1 u2 d :
  _int32 u1 = _int32 u2 -> _int32 (c * u1 + d) = _int32 (c * u2 + d).
Proof.
  rewrite !_int32_mod. intros H.
  rewrite (Z.add_mod (c * u1)), (Z.add_mod (c * u2)) by lia.
  rewrite <- (Z.mul_mod_idemp_r c u1), <- (Z.mul_mod_idemp_r c u2) by lia.
  by rewrite H.
Qed.

Lemma init_arr_seed x y :
  _int32 (Z.lxor x (Z.shiftr x 30)) = _int32 (Z.lxor y (Z.shiftr y 30)) ->
  init_arr y = <[0%nat := y]> (init_arr x).
Proof.
  intros Hxy. unfold init_arr.
  set (zeros := replicate 624 0).
  assert (Hz : length zeros = 624%nat) by apply length_replicate.
  rewrite !(sweep_app init_g 1 1 622) by lia. rewrite !sweep_one.
  assert (Hstep : step init_g 1 (<[0%nat := y]> zeros)
                  = <[0%nat := y]> (step init_g 1 (<[0%nat := x]> zeros))).
  { unfold step, init_g. change (1 - 1) with 0.
    rewrite !at_insert_0 by lia.
    rewrite (int32_affine 1812433253 _ _ 1 Hxy).
    change (Z.to_nat 1) with 1%nat.
    rewrite (list_insert_insert_ne _ 0 1) by lia.
    rewrite list_insert_insert_eq. reflexivity. }
  rewrite Hstep. unfold sweep.
  apply (foldl_step_commute init_g (fun l => <[0%nat := y]> l)).
  intros i l Hi. apply elem_of_seqZ in Hi. apply init_step_insert_0. lia.
Qed.

Lemma equal_streams_from (l : list Z) (x y : Z) (k : nat) :
  length l = 624%nat -> l !! 0%nat = Some x ->
  Z.land x 0x80000000 = Z.land y 0x80000000 ->
  draws (S k) (mkStableRandom y 624 (<[0%nat := y]> l))
  = omap (reseed y) (draws (S k) (mkStableRandom x 624 l)).
Proof.
  intros Hlen H0 Hbit.
  rewrite (low_bits_step y 624 y x l k Hlen ltac:(lia) (eq_sym Hbit)).
  rewrite (list_insert_id l 0%nat x H0).
  exact (seedless_draws (S k) y (mkStableRandom x 624 l)).
Qed.

(** X13. The seed reaches the stream through two things only: the low
    32 bits of [seed xor (seed >> 30)] and bit 31 of the seed.  Two
    seeds that agree on both give generators that return the same
    values for ever (and reach the same arrays and cursors from the
    first draw on); so [StableRandom(4294967300)] repeats
    [StableRandom(0)]. *)
Theorem seeds_with_equal_streams (x y now now' : Z) (k : nat) :
  _int32 (Z.lxor x (Z.shiftr x 30)) = _int32 (Z.lxor y (Z.shiftr y 30)) ->
  Z.land x 0x80000000 = Z.land y 0x80000000 ->
  draws (S k) (state_of (new (Some y) now'))
  = omap (reseed y) (draws (S k) (state_of (new (Some x) now))).
Proof.
  intros Hxy Hbit. rewrite !new_ok. cbv zeta. cbn [state_of].
  rewrite (init_arr_seed x y Hxy).
  apply equal_streams_from; [apply length_init_arr|apply init_arr_lookup_0|exact Hbit].
Qed.

Lemma seeds_with_equal_streams_witness :
  _int32 (Z.lxor 0 (Z.shiftr 0 30))
  = _int32 (Z.lxor 4294967300 (Z.shiftr 4294967300 30))
  /\ Z.land 0 0x80000000 = Z.land 4294967300 0x80000000
  /\ draws 3 (state_of (new (Some 4294967300) 0))
     = omap (reseed 4294967300) (draws 3 (state_of (new (Some 0) 0))).
Proof.
  split; [reflexivity|]. split; [reflexivity|].
  apply (seeds_with_equal_streams 0 4294967300 0 0 2); reflexivity.
Defined.
